(** * panel_qc: the detection-and-capture pipeline of
      [electrical_panel_monitor.py]

    A shallow embedding of [ElectricalPanelMonitor]: the bounded pre-trigger
    deque, the trigger loop of [monitor_loop], the queue shared with
    [audio_writer_thread], the shutdown path [clean_up], the energy features
    and the frequency classifier.

    The capacity of the pre-buffer is computed in IEEE doubles, as line 38
    does.  Elsewhere Python floats are idealised: readings, clock values and
    thresholds are rationals ([Q]); the filter and the means are computed
    exactly; the square root of the energy features is the real one ([R]).
    Integer samples are 16-bit and wrap as NumPy's do. *)

From Stdlib Require Import List ZArith QArith Qround Qabs Lia Bool.
From Stdlib Require Import Reals Qreals Psatz.
From Stdlib Require Strings.Byte Strings.String Strings.Ascii.
From Stdlib Require Floats.SpecFloat.
Import ListNotations.

Set Implicit Arguments.

Close Scope R_scope.
Close Scope Q_scope.

(** ** Rational helpers *)

(** Strict comparison on rationals, as a boolean. *)
Definition Qltb (x y : Q) : bool := negb (Qle_bool y x).

(** Python's [int(x)] on a float: truncation toward zero. *)
Definition py_int (x : Q) : Z := Z.quot (Qnum x) (Zpos (Qden x)).

(** [l[-n:]] for [0 < n], and [[]] for [n = 0]: the last [n] items. *)
Definition lastn {A : Type} (n : nat) (l : list A) : list A :=
  skipn (length l - n) l.

(** ** [collections.deque(maxlen=n)] *)

Module Deque.

Section Bounded.
Variable A : Type.

Record deque : Type := mk { maxlen : nat; items : list A }.

(** [deque(maxlen=n)] *)
Definition empty (n : nat) : deque := mk n [].

(** [d.append(x)]: the item is added on the right; when the size then
    exceeds [maxlen], one item is popped from the left. *)
Definition append (d : deque) (x : A) : deque :=
  let l := items d ++ [x] in
  mk (maxlen d) (if maxlen d <? length l then tl l else l).

(** [list(d)] *)
Definition to_list (d : deque) : list A := items d.

Definition extend (d : deque) (xs : list A) : deque := fold_left append xs d.

(** The size bound kept by every operation. *)
Definition bounded (d : deque) : Prop := length (items d) <= maxlen d.
End Bounded.

Arguments mk {A} _ _.
Arguments empty {A} _.

End Deque.

(** ** Configuration *)

(** The attributes [__init__] reads from the configuration. *)
Record Config : Type := mkConfig {
  ORDER : Z;
  CUTOFF : Q;
  RATE : Z;
  CHUNK : Z;
  TRIGGER_THRESHOLD : Q;
  PRE_RECORD_BUFFER : Q;
  POST_RECORD_TIME : Q;
  MIN_SILENCE_TIME : Q;
  ELECTRICAL_FREQS : list Z
}.

(** The values [config.get] falls back to. *)
Definition default_config : Config :=
  mkConfig 5 50%Q 44100 512 50%Q 2%Q 5%Q 2%Q [120%Z].

(** A small configuration: one second of pre-roll at 2 Hz in blocks of one
    sample, hence a pre-buffer of capacity 2; threshold 50, silence 2 s. *)
Definition small_config : Config :=
  mkConfig 5 50%Q 2 1 50%Q 1%Q 5%Q 2%Q [120%Z].

(** The same with no pre-roll, hence a pre-buffer of capacity 0. *)
Definition no_preroll_config : Config :=
  mkConfig 5 50%Q 2 1 50%Q 0%Q 5%Q 2%Q [120%Z].

(** ** Doubles *)

(** Python's [float]: IEEE binary64, with the operations of the Standard
    Library's specification of floating-point numbers (round to nearest,
    ties to even). *)
Module Double.

Definition prec : Z := 53.
Definition emax : Z := 1024.

(** [float(z)] for an [int]. *)
Definition of_Z (z : Z) : SpecFloat.spec_float :=
  SpecFloat.binary_normalize prec emax z 0 false.

Definition mul : SpecFloat.spec_float -> SpecFloat.spec_float
                 -> SpecFloat.spec_float :=
  SpecFloat.SFmul prec emax.

Definition div : SpecFloat.spec_float -> SpecFloat.spec_float
                 -> SpecFloat.spec_float :=
  SpecFloat.SFdiv prec emax.

(** The double a decimal number of the configuration is read as: the one
    nearest to it (numerator and denominator are below 2^53 for the numbers
    a configuration holds, so the quotient is rounded once). *)
Definition of_Q (q : Q) : SpecFloat.spec_float :=
  div (of_Z (Qnum q)) (of_Z (Zpos (Qden q))).

(** The number [m * 2^e]. *)
Definition magnitude (m : positive) (e : Z) : Q :=
  match e with
  | Z0 => inject_Z (Zpos m)
  | Zpos p => inject_Z (Zpos m * 2 ^ Zpos p)
  | Zneg p => Zpos m # (2 ^ p)%positive
  end.

(** The number a finite double stands for. *)
Definition value (f : SpecFloat.spec_float) : option Q :=
  match f with
  | SpecFloat.S754_zero _ => Some 0%Q
  | SpecFloat.S754_finite s m e =>
      Some (if s then (- magnitude m e)%Q else magnitude m e)
  | _ => None
  end.

(** [int(f)]: truncation toward zero; [None] is the error raised on an
    infinity or a NaN. *)
Definition to_int (f : SpecFloat.spec_float) : option Z :=
  match f with
  | SpecFloat.S754_zero _ => Some 0%Z
  | SpecFloat.S754_finite s m e =>
      let t := Qfloor (magnitude m e) in
      Some (if s then (- t)%Z else t)
  | _ => None
  end.

End Double.

(** [sys.maxsize], the largest [maxlen] a deque takes. *)
Definition ssize_max : Z := (2 ^ 63 - 1)%Z.

(** [self.PRE_RECORD_BUFFER * self.RATE / self.CHUNK] as line 38 computes
    it: the pre-roll is a double, the two integers are converted, the
    product and the quotient are rounded. *)
Definition pre_buffer_blocks (cfg : Config) : SpecFloat.spec_float :=
  Double.div (Double.mul (Double.of_Q (PRE_RECORD_BUFFER cfg))
                         (Double.of_Z (RATE cfg)))
             (Double.of_Z (CHUNK cfg)).

(** [int(self.PRE_RECORD_BUFFER * self.RATE / self.CHUNK)], the [maxlen] of
    [pre_buffer].  [None] stands for the exception raised by a zero chunk size
    (division by zero), by [int] on an infinity or a NaN, or by the deque on a
    [maxlen] that is negative or above [sys.maxsize]. *)
Definition pre_buffer_maxlen (cfg : Config) : option nat :=
  if (CHUNK cfg =? 0)%Z then None
  else
    match Double.to_int (pre_buffer_blocks cfg) with
    | None => None
    | Some n =>
        if (n <? 0)%Z then None
        else if (ssize_max <? n)%Z then None
        else Some (Z.to_nat n)
    end.

(** ** The capture side: [monitor_loop], [start_recording], [stop_recording] *)

(** What the capture loop writes to the logger. *)
Inductive LogRecord : Type :=
| InputOverflow                         (* "Input overflow detected, ..." *)
| TriggerDetected (rms now : Q)         (* "TRIGGER DETECTED! RMS: ..." *)
| RecordingStarted                      (* "Recording started with pre-buffer..." *)
| RecordingStopped (timestamp : Q)      (* "Trigger recording stopped at ..." *)
| Status (recording : bool) (rms : Q) (detections : nat).

(** Reading a log.  [episodes r l] follows the start and stop records of [l]
    from the recording flag [r]: it is [None] when a start comes while
    recording or a stop while listening, else the flag at the end. *)
Fixpoint episodes (r : bool) (l : list LogRecord) : option bool :=
  match l with
  | [] => Some r
  | RecordingStarted :: l' => if r then None else episodes true l'
  | RecordingStopped _ :: l' => if r then episodes false l' else None
  | _ :: l' => episodes r l'
  end.

Definition is_started (m : LogRecord) : bool :=
  match m with RecordingStarted => true | _ => false end.

Definition is_stopped (m : LogRecord) : bool :=
  match m with RecordingStopped _ => true | _ => false end.

Definition starts (l : list LogRecord) : nat := length (filter is_started l).
Definition stops (l : list LogRecord) : nat := length (filter is_stopped l).

Definition is_marker {A : Type} (x : option A) : bool :=
  match x with None => true | Some _ => false end.

(** The end-of-clip sentinels among queued items. *)
Definition markers {A : Type} (q : list (option A)) : nat :=
  length (filter is_marker q).

(** What a consumer makes of a sequence of items: blocks are gathered into
    the clip at hand, a sentinel closes it (an empty one is dropped). *)
Definition absorb {A : Type} (acc : list (list A) * list A) (x : option A)
  : list (list A) * list A :=
  match x with
  | Some b => (fst acc, snd acc ++ [b])
  | None =>
      match snd acc with
      | [] => (fst acc, [])
      | _ :: _ => (fst acc ++ [snd acc], [])
      end
  end.

Module Monitor.

Section Capture.
Variable Block : Type.

(** The attributes of [self] the pipeline reads and writes.  [audio_queue]
    holds the items put and not yet taken, oldest first; the sentinel
    [None] of the source is [None] here. *)
Record Self : Type := mkSelf {
  recording : bool;
  pre_buffer : Deque.deque Block;
  audio_queue : list (option Block);
  writer_thread_stop_event : bool;
  detections : nat;
  logger : list LogRecord
}.

Definition set_recording (b : bool) (s : Self) : Self :=
  mkSelf b (pre_buffer s) (audio_queue s) (writer_thread_stop_event s)
         (detections s) (logger s).

Definition set_pre_buffer (d : Deque.deque Block) (s : Self) : Self :=
  mkSelf (recording s) d (audio_queue s) (writer_thread_stop_event s)
         (detections s) (logger s).

Definition set_audio_queue (q : list (option Block)) (s : Self) : Self :=
  mkSelf (recording s) (pre_buffer s) q (writer_thread_stop_event s)
         (detections s) (logger s).

Definition set_stop_event (b : bool) (s : Self) : Self :=
  mkSelf (recording s) (pre_buffer s) (audio_queue s) b
         (detections s) (logger s).

Definition set_detections (n : nat) (s : Self) : Self :=
  mkSelf (recording s) (pre_buffer s) (audio_queue s)
         (writer_thread_stop_event s) n (logger s).

(** [self.audio_queue.put(x)] *)
Definition put (x : option Block) (s : Self) : Self :=
  set_audio_queue (audio_queue s ++ [x]) s.

(** [self.logger.info(...)] / [self.logger.warning(...)] *)
Definition log (m : LogRecord) (s : Self) : Self :=
  mkSelf (recording s) (pre_buffer s) (audio_queue s)
         (writer_thread_stop_event s) (detections s) (logger s ++ [m]).

(** [__init__]: the deque is built with the computed [maxlen]. *)
Definition init (cfg : Config) : option Self :=
  match pre_buffer_maxlen cfg with
  | Some n => Some (mkSelf false (Deque.empty n) [] false 0 [])
  | None => None
  end.

(** [start_recording] *)
Definition start_recording (s : Self) : Self :=
  let s := set_recording true s in
  let s := log RecordingStarted s in
  fold_left (fun s buf => put (Some buf) s)
            (Deque.to_list (pre_buffer s)) s.

(** [stop_recording] *)
Definition stop_recording (timestamp : Q) (s : Self) : Self :=
  let s := set_recording false s in
  let s := set_detections (detections s + 1) s in
  let s := put None s in
  log (RecordingStopped timestamp) s.

(** One block as the loop body sees it: the bytes read, the reading
    [calculate_filtered_rms] returns for them, and the clock. *)
Record Frame : Type := mkFrame { data : Block; rms : Q; now : Q }.

(** The state of [monitor_loop]: [self] and the local
    [silence_start_time]. *)
Record Loop : Type := mkLoop {
  self : Self;
  silence_start_time : option Q
}.

(** [int(time.time()) % 5 == 0 and time.time() - int(time.time()) < 0.02],
    the three calls of [time.time()] taken at one clock value [t]
    ([Pipeline.status_reads] keeps them apart). *)
Definition status_due (t : Q) : bool :=
  (py_int t mod 5 =? 0)%Z && Qltb (t - inject_Z (py_int t)) (2 # 100).

(** The trigger decision, lines 198 to 216 of the source. *)
Definition trigger (cfg : Config) (st : Loop) (fr : Frame) : Loop :=
  let s := set_pre_buffer (Deque.append (pre_buffer (self st)) (data fr))
                          (self st) in
  let st :=
    if negb (recording s) && Qltb (TRIGGER_THRESHOLD cfg) (rms fr) then
      mkLoop (start_recording (log (TriggerDetected (rms fr) (now fr)) s))
             None
    else mkLoop s (silence_start_time st) in
  if recording (self st) then
    let s := put (Some (data fr)) (self st) in
    if Qltb (rms fr) (TRIGGER_THRESHOLD cfg) then
      match silence_start_time st with
      | None => mkLoop s (Some (now fr))
      | Some t0 =>
          if Qltb (MIN_SILENCE_TIME cfg) (now fr - t0) then
            mkLoop (stop_recording (now fr) s) None
          else mkLoop s (Some t0)
      end
    else mkLoop s None
  else st.

(** The body of the [while True] of [monitor_loop] on a block that was
    read: the trigger decision, then the periodic status line. *)
Definition monitor_body (cfg : Config) (st : Loop) (fr : Frame) : Loop :=
  let st := trigger cfg st fr in
  if status_due (now fr) then
    mkLoop (log (Status (recording (self st)) (rms fr)
                        (detections (self st))) (self st))
           (silence_start_time st)
  else st.

(** What [self.stream.read] gives: an [IOError] or a block. *)
Inductive ReadResult : Type :=
| Overflow
| Read (fr : Frame).

Definition monitor_iteration (cfg : Config) (st : Loop) (r : ReadResult)
  : Loop :=
  match r with
  | Overflow => mkLoop (log InputOverflow (self st)) (silence_start_time st)
  | Read fr => monitor_body cfg st fr
  end.

(** The iterations [monitor_loop] runs before it is interrupted;
    [silence_start_time] starts as [None]. *)
Definition monitor_loop (cfg : Config) (s : Self) (reads : list ReadResult)
  : Loop :=
  fold_left (monitor_iteration cfg) reads (mkLoop s None).

(** The blocks a list of reads delivers. *)
Definition blocks (reads : list ReadResult) : list Block :=
  flat_map (fun r => match r with Overflow => [] | Read fr => [data fr] end)
           reads.

(** The books of the capture loop: the log alternates starts and stops and
    ends in the recording flag; stops, sentinels put and detections agree;
    there is one more start exactly while a recording is open. *)
Definition accounted (st : Loop) : Prop :=
  episodes false (logger (self st)) = Some (recording (self st))
  /\ stops (logger (self st)) = detections (self st)
  /\ markers (audio_queue (self st)) = detections (self st)
  /\ starts (logger (self st))
     = detections (self st) + (if recording (self st) then 1 else 0).

(** ** The writer side: [audio_writer_thread] *)

(** Where the writer thread stands: at the test of its [while], inside
    [audio_queue.get(timeout=1)], or past the loop. *)
Inductive Pc : Type := AtWhile | InGet | Returned.

(** A call [_save_recording(data_chunks, filepath, timestamps)]; the file
    name is made from [stamp]. *)
Record Saved : Type := mkSaved { stamp : Q; data_chunks : list Block }.

(** The locals of [audio_writer_thread] and the files it has written. *)
Record Writer : Type := mkWriter {
  pc : Pc;
  recording_data : list Block;
  timestamps : list Q;
  files : list Saved
}.

Definition writer_start : Writer := mkWriter AtWhile [] [] [].

(** What the writer does with an item it took from the queue. *)
Definition writer_item (t : Q) (w : Writer) (x : option Block) : Writer :=
  match x with
  | None =>
      match recording_data w with
      | [] => mkWriter AtWhile [] (timestamps w) (files w)
      | _ :: _ =>
          mkWriter AtWhile [] []
                   (files w ++ [mkSaved (hd t (timestamps w))
                                        (recording_data w)])
      end
  | Some d =>
      mkWriter AtWhile (recording_data w ++ [d]) (timestamps w ++ [t])
               (files w)
  end.

(** The whole program state: the capture loop, the writer thread, and the
    history of the items [get] has returned (kept for the statements, the
    source has no such list). *)
Record System : Type := mkSystem {
  mon : Loop;
  wr : Writer;
  observed : list (option Block)
}.

(** One step of the writer thread at clock [t].  A step inside [get] on an
    empty queue is the timeout ([queue.Empty], then [continue]). *)
Definition writer_step (t : Q) (sys : System) : System :=
  let s := self (mon sys) in
  let w := wr sys in
  match pc w with
  | AtWhile =>
      let pc' := if writer_thread_stop_event s then Returned else InGet in
      mkSystem (mon sys)
               (mkWriter pc' (recording_data w) (timestamps w) (files w))
               (observed sys)
  | InGet =>
      match audio_queue s with
      | [] =>
          mkSystem (mon sys)
                   (mkWriter AtWhile (recording_data w) (timestamps w)
                             (files w))
                   (observed sys)
      | x :: q =>
          mkSystem (mkLoop (set_audio_queue q s)
                           (silence_start_time (mon sys)))
                   (writer_item t w x)
                   (observed sys ++ [x])
      end
  | Returned => sys
  end.

(** [clean_up]: the stop event is set; the [join(timeout=5)] that follows
    is the writer steps that come after it. *)
Definition clean_up (sys : System) : System :=
  mkSystem (mkLoop (set_stop_event true (self (mon sys)))
                   (silence_start_time (mon sys)))
           (wr sys) (observed sys).

(** The moves of the two threads.  An iteration of the capture loop is one
    move: writer steps and the shutdown fall between iterations, an
    interrupt inside an iteration is not a move of this system. *)
Inductive Action : Type :=
| Put (x : option Block)       (* a call of [audio_queue.put] *)
| Iteration (r : ReadResult)   (* one iteration of [monitor_loop] *)
| WriterStep (t : Q)           (* one step of [audio_writer_thread] *)
| CleanUp.                     (* [clean_up] *)

Definition step (cfg : Config) (sys : System) (a : Action) : System :=
  match a with
  | Put x =>
      mkSystem (mkLoop (put x (self (mon sys)))
                       (silence_start_time (mon sys)))
               (wr sys) (observed sys)
  | Iteration r =>
      mkSystem (monitor_iteration cfg (mon sys) r) (wr sys) (observed sys)
  | WriterStep t => writer_step t sys
  | CleanUp => clean_up sys
  end.

Definition run (cfg : Config) (sys : System) (sched : list Action)
  : System :=
  fold_left (step cfg) sched sys.

(** [start_monitoring] once the device is open: the stop event is cleared
    and the writer thread started. *)
Definition start (s : Self) : System :=
  mkSystem (mkLoop (set_stop_event false s) None) writer_start [].

(** The items put by a schedule made of [Put] moves. *)
Definition puts (sched : list Action) : list (option Block) :=
  flat_map (fun a => match a with Put x => [x] | _ => [] end) sched.

(** Whether a schedule runs the capture loop. *)
Definition no_iteration (sched : list Action) : bool :=
  forallb (fun a => match a with Iteration _ => false | _ => true end)
          sched.
(** What the writer holds: the clips it has saved and the clip at hand. *)
Definition writer_view (sys : System) : list (list Block) * list Block :=
  (map data_chunks (files (wr sys)), recording_data (wr sys)).
End Capture.

Arguments Overflow {Block}.
Arguments CleanUp {Block}.
Arguments WriterStep {Block} t.
Arguments writer_start {Block}.

End Monitor.

(** ** Energy features: [calculate_rms], [calculate_filtered_rms] *)

Module Features.

(** A value of NumPy's [int16]: the integer reduced to [-32768, 32767]. *)
Definition wrap16 (z : Z) : Z := ((z + 32768) mod 65536 - 32768)%Z.

(** [np.frombuffer(data, dtype=np.int16)]: little-endian pairs of bytes;
    [None] is the error raised on a buffer of odd size. *)
Fixpoint frombuffer (data : list Byte.byte) : option (list Z) :=
  match data with
  | [] => Some []
  | [_] => None
  | lo :: hi :: rest =>
      match frombuffer rest with
      | Some l =>
          Some (wrap16 (Z.of_N (Strings.Byte.to_N lo)
                        + 256 * Z.of_N (Strings.Byte.to_N hi)) :: l)
      | None => None
      end
  end.

(** [np.nan_to_num] on an integer array: there is nothing to replace, the
    array comes back as it is. *)
Definition nan_to_num (a : list Z) : list Z := a.

Definition Zsum (l : list Z) : Z := fold_right Z.add 0%Z l.
Definition Qsum (l : list Q) : Q := fold_right Qplus 0%Q l.

(** [np.mean] of an [int16] array and of a float array. *)
Definition Zmean (l : list Z) : Q :=
  (inject_Z (Zsum l) / inject_Z (Z.of_nat (length l)))%Q.
Definition Qmean (l : list Q) : Q :=
  (Qsum l / inject_Z (Z.of_nat (length l)))%Q.

(** [calculate_rms]: the squares are taken in [int16] and wrap. *)
Definition calculate_rms (data : list Byte.byte) : option R :=
  match frombuffer data with
  | None => None
  | Some [] => Some 0%R
  | Some audio_data =>
      let squared :=
        Zmean (map (fun x => wrap16 (x * x)) (nan_to_num audio_data)) in
      if Qltb squared 0 then Some 0%R else Some (sqrt (Q2R squared))
  end.

(** [sum(l[k] * h[k])] over the indices both lists have. *)
Fixpoint dot (l h : list Q) : Q :=
  match l, h with
  | c :: l', v :: h' => (c * v + dot l' h')%Q
  | _, _ => 0%Q
  end.

(** The difference equation of [scipy.signal.lfilter]; [xh] and [yh] are
    the earlier inputs and outputs, latest first.  The arithmetic is exact
    where SciPy rounds each operation to a double: what is proved of it
    below (lengths, zeros on zeros, outputs of a prefix) does not depend on
    the rounding. *)
Fixpoint lfilter_from (b : list Q) (a0 : Q) (a' : list Q) (xh yh : list Q)
                      (x : list Q) : list Q :=
  match x with
  | [] => []
  | v :: x' =>
      let y := ((dot b (v :: xh) - dot a' yh) / a0)%Q in
      y :: lfilter_from b a0 a' (v :: xh) (y :: yh) x'
  end.

(** [lfilter(b, a, x)]; [None] is the error raised when [a[0]] is zero or
    missing. *)
Definition lfilter (b a : list Q) (x : list Q) : option (list Q) :=
  match a with
  | [] => None
  | a0 :: a' =>
      if Qeq_bool a0 0 then None else Some (lfilter_from b a0 a' [] [] x)
  end.

Section Filtered.
(** [scipy.signal.butter(order, Wn, btype='high', analog=False)], the
    designer of the coefficients [(b, a)]; [None] is its error. *)
Variable butter_high : Z -> Q -> option (list Q * list Q).

(** [butter_highpass] *)
Definition butter_highpass (cutoff : Q) (fs : Z) (order : Z)
  : option (list Q * list Q) :=
  let nyq := ((1 # 2) * inject_Z fs)%Q in
  if Qeq_bool nyq 0 then None
  else butter_high order (cutoff / nyq)%Q.

(** [highpass_filter] *)
Definition highpass_filter (x : list Q) (cutoff : Q) (fs : Z) (order : Z)
  : option (list Q) :=
  match butter_highpass cutoff fs order with
  | Some (b, a) => lfilter b a x
  | None => None
  end.

(** [calculate_filtered_rms] *)
Definition calculate_filtered_rms (data : list Byte.byte) (cutoff : Q)
           (fs : Z) (order : Z) : option R :=
  match frombuffer data with
  | None => None
  | Some [] => Some 0%R
  | Some audio_data =>
      match highpass_filter (map inject_Z (nan_to_num audio_data))
                            cutoff fs order with
      | None => None
      | Some filtered_audio =>
          let squared := Qmean (map (fun y => y * y)%Q filtered_audio) in
          Some (sqrt (Q2R squared))
      end
  end.
End Filtered.

End Features.

(** ** The frequency classifier: [analyze_frequencies] *)

Module Analysis.

(** [np.fft.fftfreq(n, d)]: the bin frequencies [k / (n * d)] with
    [k = 0, 1, ..., (n-1)//2, -(n//2), ..., -1]. *)
Definition fftfreq (n : nat) (d : Q) : list Q :=
  let val := (1 / (inject_Z (Z.of_nat n) * d))%Q in
  map (fun i =>
         let k := if (i <=? (n - 1) / 2)%nat then Z.of_nat i
                  else (Z.of_nat i - Z.of_nat n)%Z in
         (inject_Z k * val)%Q)
      (seq 0 n).

(** [np.argmin]: the first index of the least item, scanning from index
    [i] with the least so far [best] at [best_i]. *)
Fixpoint argmin_from (best_i : nat) (best : Q) (i : nat) (l : list Q)
  : nat :=
  match l with
  | [] => best_i
  | x :: l' =>
      if Qltb x best then argmin_from i x (S i) l'
      else argmin_from best_i best (S i) l'
  end.

Definition argmin (l : list Q) : nat :=
  match l with
  | [] => 0
  | x :: l' => argmin_from 0 x 1 l'
  end.

(** [freq_info[key] = v] on a dict kept in insertion order; the key
    ["<freq>Hz"] is the frequency. *)
Fixpoint dict_set (k : Z) (v : Q) (d : list (Z * Q)) : list (Z * Q) :=
  match d with
  | [] => [(k, v)]
  | (k', v') :: d' =>
      if (k =? k')%Z then (k, v) :: d' else (k', v') :: dict_set k v d'
  end.

Fixpoint dict_get (k : Z) (d : list (Z * Q)) : option Q :=
  match d with
  | [] => None
  | (k', v') :: d' => if (k =? k')%Z then Some v' else dict_get k d'
  end.

(** The index chosen for a target: [np.argmin(np.abs(freqs - freq))]. *)
Definition freq_idx (freqs : list Q) (freq : Z) : nat :=
  argmin (map (fun f => Qabs (f - inject_Z freq)) freqs).

(** [analyze_frequencies].  [abs_fft] is [np.abs(np.fft.fft(audio_data))],
    the magnitudes of the transform NumPy computes, one per sample; [None]
    is the error raised on an empty clip or a zero sample rate. *)
Definition analyze_frequencies (cfg : Config) (abs_fft : list Q)
  : option (bool * list (Z * Q)) :=
  match abs_fft with
  | [] => None
  | _ :: _ =>
      if (RATE cfg =? 0)%Z then None
      else
        let freqs := fftfreq (length abs_fft) (1 / inject_Z (RATE cfg))%Q in
        Some (fold_left
                (fun (acc : bool * list (Z * Q)) freq =>
                   let magnitude := nth (freq_idx freqs freq) abs_fft 0%Q in
                   (if Qltb (Features.Qmean abs_fft * 2)%Q magnitude
                    then true else fst acc,
                    dict_set freq magnitude (snd acc)))
                (ELECTRICAL_FREQS cfg) (false, []))
  end.

End Analysis.

(** ** Device selection: [find_usb_microphone] *)

Module Device.
Import String.

(** What [get_device_info_by_index] tells about a device, as far as the
    search reads it. *)
Record DeviceInfo : Type := mkDevice {
  name : string;
  maxInputChannels : Z
}.

(** [s.startswith(sub)] *)
Fixpoint starts_with (sub s : string) : bool :=
  match sub, s with
  | EmptyString, _ => true
  | String _ _, EmptyString => false
  | String a sub', String b s' => Ascii.eqb a b && starts_with sub' s'
  end.

(** [sub in s] on strings. *)
Fixpoint contains (sub s : string) : bool :=
  starts_with sub s
  || match s with
     | EmptyString => false
     | String _ s' => contains sub s'
     end.

(** The test of the search loop. *)
Definition is_usb_microphone (d : DeviceInfo) : bool :=
  (contains "USB" (name d) || contains "Microphone" (name d))
  && (0 <? maxInputChannels d)%Z.

(** A device the search accepts: its name has "USB" or "Microphone" as a
    substring and it has input channels. *)
Definition usable (d : DeviceInfo) : Prop :=
  ((exists pre post, name d = pre ++ "USB" ++ post)
   \/ (exists pre post, name d = pre ++ "Microphone" ++ post))%string
  /\ (0 < maxInputChannels d)%Z.

(** The loop over [range(get_device_count())] from index [i] on. *)
Fixpoint find_from (i : nat) (devices : list DeviceInfo) : option nat :=
  match devices with
  | [] => None
  | d :: devices' =>
      if is_usb_microphone d then Some i else find_from (S i) devices'
  end.

(** [find_usb_microphone] *)
Definition find_usb_microphone (devices : list DeviceInfo) : option nat :=
  find_from 0 devices.

End Device.

(** ** [calculate_peak] and the low-pass pair *)

Module Levels.
Import Features.

(** [calculate_peak]: [np.abs] stays in [int16], so the absolute value of
    -32768 wraps to -32768. *)
Definition int16_abs (a : list Z) : list Z :=
  map (fun v => wrap16 (Z.abs v)) a.

(** [np.max] of an array (it is called on non-empty ones). *)
Definition array_max (a : list Z) : Z :=
  match a with
  | [] => 0%Z
  | m :: ms => fold_left Z.max ms m
  end.

Definition calculate_peak (data : list Byte.byte) : option Z :=
  match frombuffer data with
  | None => None
  | Some [] => Some 0%Z
  | Some audio_data => Some (array_max (int16_abs (nan_to_num audio_data)))
  end.

Section Lowpass.
(** [scipy.signal.butter(order, Wn, btype='low', analog=False)] *)
Variable butter_low : Z -> Q -> option (list Q * list Q).

(** [butter_lowpass] *)
Definition butter_lowpass (cutoff : Q) (fs : Z) (order : Z)
  : option (list Q * list Q) :=
  let nyq := ((1 # 2) * inject_Z fs)%Q in
  if Qeq_bool nyq 0 then None
  else butter_low order (cutoff / nyq)%Q.

(** [lowpass_filter] *)
Definition lowpass_filter (x : list Q) (cutoff : Q) (fs : Z) (order : Z)
  : option (list Q) :=
  match butter_lowpass cutoff fs order with
  | Some (b, a) => lfilter b a x
  | None => None
  end.
End Lowpass.

End Levels.

(** ** The two threads together *)

Module Pipeline.
Import Monitor.

(** The test of line 218 on the three values its calls of [time.time()]
    return, in the order they are made. *)
Definition status_reads (t1 t2 t3 : Q) : bool :=
  (py_int t1 mod 5 =? 0)%Z && Qltb (t2 - inject_Z (py_int t3)) (2 # 100).

Section Threads.
Variable Block : Type.

(** The loop state with another queue content. *)
Definition requeue (q : list (option Block)) (st : Loop Block)
  : Loop Block :=
  mkLoop (set_audio_queue q (self st)) (silence_start_time st).

(** The loop state without its log. *)
Definition forget_log (st : Loop Block) : Loop Block :=
  mkLoop (mkSelf (recording (self st)) (pre_buffer (self st))
                 (audio_queue (self st))
                 (writer_thread_stop_event (self st))
                 (detections (self st)) [])
         (silence_start_time st).

(** The reads that delivered a block. *)
Definition delivered (reads : list (ReadResult Block))
  : list (ReadResult Block) :=
  filter (fun r => match r with Overflow => false | Read _ => true end)
         reads.

(** The reads of the capture loop in a schedule. *)
Definition iterations (sched : list (Action Block))
  : list (ReadResult Block) :=
  flat_map (fun a => match a with Iteration r => [r] | _ => [] end) sched.

(** Whether only the two threads and the shutdown move the system. *)
Definition no_put (sched : list (Action Block)) : bool :=
  forallb (fun a => match a with Put _ => false | _ => true end) sched.

(** The blocks among queue items. *)
Definition blocks_of (items : list (option Block)) : list Block :=
  flat_map (fun x => match x with Some b => [b] | None => [] end) items.

(** Two loop states that differ at most in the queue content and the stop
    event, the two things the other thread touches. *)
Definition same_capture (st1 st2 : Loop Block) : Prop :=
  recording (self st1) = recording (self st2)
  /\ pre_buffer (self st1) = pre_buffer (self st2)
  /\ detections (self st1) = detections (self st2)
  /\ logger (self st1) = logger (self st2)
  /\ silence_start_time st1 = silence_start_time st2.

(** A read whose reading does not exceed the threshold, or no read at
    all. *)
Definition quiet (cfg : Config) (r : ReadResult Block) : Prop :=
  match r with
  | Overflow => True
  | Read fr => (rms fr <= TRIGGER_THRESHOLD cfg)%Q
  end.

(** What the writer keeps in step: the clips saved and the clip at hand
    are the blocks observed, no saved clip is empty, every block at hand
    has its time stamp, and no more clips are saved than markers seen. *)
Definition writer_consistent (sys : System Block) : Prop :=
  concat (map (@data_chunks Block) (files (wr sys)))
  ++ recording_data (wr sys)
  = blocks_of (observed sys)
  /\ Forall (fun f => data_chunks f <> []) (files (wr sys))
  /\ length (timestamps (wr sys)) = length (recording_data (wr sys))
  /\ length (files (wr sys)) <= markers (observed sys).
End Threads.

End Pipeline.

(** * Properties *)

(** ** Rationals *)

Lemma Qltb_lt (x y : Q) : Qltb x y = true <-> (x < y)%Q.
Proof.
  unfold Qltb. rewrite negb_true_iff, <- not_true_iff_false, Qle_bool_iff.
  split; [apply Qnot_le_lt | apply Qlt_not_le].
Qed.

Lemma Qltb_ge (x y : Q) : Qltb x y = false <-> (y <= x)%Q.
Proof.
  unfold Qltb. rewrite negb_false_iff. apply Qle_bool_iff.
Qed.

Lemma py_int_floor (x : Q) : (0 <= x)%Q -> py_int x = Qfloor x.
Proof.
  destruct x as [n d]. unfold Qle, py_int, Qfloor. simpl. intros H.
  apply Z.quot_div_nonneg; lia.
Qed.

(** ** Lists *)

Lemma lastn_all {A : Type} (n : nat) (l : list A) :
  length l <= n -> lastn n l = l.
Proof.
  intros H. unfold lastn. replace (length l - n) with 0 by lia. reflexivity.
Qed.

Lemma lastn_length {A : Type} (n : nat) (l : list A) :
  length (lastn n l) = Nat.min n (length l).
Proof. unfold lastn. rewrite length_skipn. lia. Qed.

Lemma lastn_lastn_app {A : Type} (n : nat) (l xs : list A) :
  lastn n (lastn n l ++ xs) = lastn n (l ++ xs).
Proof.
  unfold lastn. rewrite !length_app, length_skipn.
  rewrite !skipn_app, skipn_skipn, length_skipn.
  f_equal; f_equal; lia.
Qed.

Lemma lastn_snoc_in {A : Type} (n : nat) (l : list A) (x : A) :
  1 <= n -> exists l', lastn n (l ++ [x]) = l' ++ [x].
Proof.
  intros H. unfold lastn. rewrite length_app, skipn_app. simpl.
  replace (length l + 1 - n - length l) with 0 by lia.
  exists (skipn (length l + 1 - n) l). reflexivity.
Qed.

(** ** The bounded deque *)

Module DequeFacts.
Import Deque.

Lemma empty_bounded (A : Type) (n : nat) : bounded (@empty A n).
Proof. unfold bounded. simpl. lia. Qed.

Lemma append_maxlen (A : Type) (d : deque A) (x : A) :
  maxlen (append d x) = maxlen d.
Proof. reflexivity. Qed.

Lemma append_bounded (A : Type) (d : deque A) (x : A) :
  bounded d -> bounded (append d x).
Proof.
  unfold bounded, append. simpl. intros H.
  destruct (Nat.ltb_spec (maxlen d) (length (items d ++ [x]))) as [L|L].
  - destruct (items d ++ [x]) eqn:E.
    + simpl. lia.
    + apply (f_equal (@length A)) in E. rewrite length_app in E.
      simpl in *. lia.
  - exact L.
Qed.

(** A push keeps the last [maxlen] items of what was there and the new
    one. *)
Lemma append_items (A : Type) (d : deque A) (x : A) :
  bounded d -> items (append d x) = lastn (maxlen d) (items d ++ [x]).
Proof.
  unfold bounded, append. simpl. intros H.
  destruct (Nat.ltb_spec (maxlen d) (length (items d ++ [x]))) as [L|L].
  - unfold lastn. rewrite length_app in *. simpl in *.
    replace (length (items d) + 1 - maxlen d) with 1 by lia.
    destruct (items d ++ [x]); reflexivity.
  - symmetry. apply lastn_all. exact L.
Qed.

Lemma extend_maxlen (A : Type) (xs : list A) (d : deque A) :
  maxlen (extend d xs) = maxlen d.
Proof.
  unfold extend. revert d. induction xs as [|x xs IH]; intros d; simpl.
  - reflexivity.
  - rewrite IH. reflexivity.
Qed.

Lemma extend_bounded (A : Type) (xs : list A) (d : deque A) :
  bounded d -> bounded (extend d xs).
Proof.
  unfold extend. revert d. induction xs as [|x xs IH]; intros d H; simpl.
  - exact H.
  - apply IH. apply append_bounded. exact H.
Qed.

Lemma extend_items (A : Type) (xs : list A) (d : deque A) :
  bounded d -> items (extend d xs) = lastn (maxlen d) (items d ++ xs).
Proof.
  unfold extend. revert d. induction xs as [|x xs IH]; intros d H; simpl.
  - rewrite app_nil_r. symmetry. apply lastn_all. exact H.
  - rewrite IH by (apply append_bounded; exact H).
    rewrite append_items by exact H. rewrite append_maxlen.
    rewrite lastn_lastn_app, <- app_assoc. reflexivity.
Qed.

Lemma extend_app (A : Type) (xs ys : list A) (d : deque A) :
  extend d (xs ++ ys) = extend (extend d xs) ys.
Proof. unfold extend. apply fold_left_app. Qed.
End DequeFacts.

(** ** Doubles and the capacity of the pre-buffer *)

Module DoubleFacts.

Lemma magnitude_pos (m : positive) (e : Z) : (0 < Double.magnitude m e)%Q.
Proof.
  unfold Double.magnitude, Qlt. destruct e as [|p|p].
  - simpl. lia.
  - change (0 * 1 < Zpos m * 2 ^ Zpos p * 1)%Z.
    assert (H : (0 < 2 ^ Zpos p)%Z) by (apply Z.pow_pos_nonneg; lia).
    nia.
  - simpl. lia.
Qed.

(** [int] truncates toward zero: the floor of a double that is zero or
    more, minus the floor of its opposite otherwise. *)
Lemma to_int_truncates (f : SpecFloat.spec_float) (n : Z) :
  Double.to_int f = Some n ->
  exists v,
    Double.value f = Some v
    /\ ((0 <= v)%Q -> n = Qfloor v)
    /\ ((v <= 0)%Q -> n = (- Qfloor (- v))%Z).
Proof.
  destruct f as [s | s | | s m e];
    cbn [Double.to_int Double.value]; try discriminate.
  - intros H. injection H as <-. exists 0%Q.
    split; [reflexivity|]. split; reflexivity.
  - cbv zeta. intros H. injection H as <-.
    pose proof (magnitude_pos m e) as P.
    destruct s; eexists; (split; [reflexivity|]); split; intros H.
    + exfalso. lra.
    + f_equal. apply Qfloor_comp. symmetry. apply Qopp_involutive.
    + reflexivity.
    + exfalso. lra.
Qed.

(** The capacity [__init__] gives the deque: the double of line 38 rounded
    down when it is zero or more, 0 when it is zero or less, and within
    [sys.maxsize]. *)
Lemma maxlen_of_double (cfg : Config) (N : nat) :
  pre_buffer_maxlen cfg = Some N ->
  (exists v,
      Double.value (pre_buffer_blocks cfg) = Some v
      /\ ((0 <= v)%Q -> Z.of_nat N = Qfloor v)
      /\ ((v <= 0)%Q -> N = 0))
  /\ (Z.of_nat N <= ssize_max)%Z.
Proof.
  unfold pre_buffer_maxlen.
  destruct (CHUNK cfg =? 0)%Z; [discriminate|].
  destruct (Double.to_int (pre_buffer_blocks cfg)) as [n|] eqn:E;
    [|discriminate].
  destruct (Z.ltb_spec n 0) as [|Pos]; [discriminate|].
  destruct (Z.ltb_spec ssize_max n) as [|Max]; [discriminate|].
  intros H. injection H as <-.
  destruct (to_int_truncates _ E) as (v & V & Hpos & Hneg).
  split; [|now rewrite Z2Nat.id].
  exists v. split; [exact V|]. split.
  - intros Hv. rewrite Z2Nat.id by exact Pos. now apply Hpos.
  - intros Hv. specialize (Hneg Hv).
    assert (F : (0 <= Qfloor (- v))%Z).
    { change 0%Z with (Qfloor 0). apply Qfloor_resp_le. lra. }
    assert (n = 0%Z) as -> by lia. reflexivity.
Qed.
End DoubleFacts.

(** ** The capture loop, one block at a time *)

Module MonitorFacts.
Import Monitor.

Section Facts.
Variable Block : Type.
Variable cfg : Config.

Lemma fold_put (l : list Block) (s : Self Block) :
  fold_left (fun s buf => put (Some buf) s) l s
  = set_audio_queue (audio_queue s ++ map Some l) s.
Proof.
  revert s. induction l as [|b l IH]; intros s; simpl.
  - destruct s; unfold set_audio_queue; simpl. now rewrite app_nil_r.
  - rewrite IH. unfold put, set_audio_queue. simpl.
    now rewrite <- app_assoc.
Qed.

Lemma start_recording_eq (s : Self Block) :
  start_recording s
  = mkSelf true (pre_buffer s)
           (audio_queue s ++ map Some (Deque.items (pre_buffer s)))
           (writer_thread_stop_event s) (detections s)
           (logger s ++ [RecordingStarted]).
Proof. unfold start_recording. rewrite fold_put. reflexivity. Qed.

Lemma loud_not_quiet (x y : Q) : Qltb x y = true -> Qltb y x = false.
Proof.
  rewrite Qltb_lt, Qltb_ge. apply Qlt_le_weak.
Qed.

(** Listening, reading not above the threshold: only the pre-buffer
    moves. *)
Lemma trigger_listening_quiet (st : Loop Block) (fr : Frame Block) :
  recording (self st) = false ->
  Qltb (TRIGGER_THRESHOLD cfg) (rms fr) = false ->
  trigger cfg st fr
  = mkLoop (set_pre_buffer (Deque.append (pre_buffer (self st)) (data fr))
                           (self st))
           (silence_start_time st).
Proof.
  intros R L. unfold trigger. simpl. rewrite R, L. simpl. rewrite R.
  reflexivity.
Qed.

(** Listening, reading above the threshold: the recording starts with the
    pre-buffer as it stands after the push, then the block is put. *)
Lemma trigger_listening_loud (st : Loop Block) (fr : Frame Block) :
  recording (self st) = false ->
  Qltb (TRIGGER_THRESHOLD cfg) (rms fr) = true ->
  let pb := Deque.append (pre_buffer (self st)) (data fr) in
  trigger cfg st fr
  = mkLoop (mkSelf true pb
                   ((audio_queue (self st) ++ map Some (Deque.items pb))
                    ++ [Some (data fr)])
                   (writer_thread_stop_event (self st))
                   (detections (self st))
                   ((logger (self st)
                     ++ [TriggerDetected (rms fr) (now fr)])
                    ++ [RecordingStarted]))
           None.
Proof.
  intros R L pb. unfold trigger. simpl. rewrite R, L. simpl.
  rewrite start_recording_eq. simpl.
  rewrite (loud_not_quiet _ _ L). reflexivity.
Qed.

(** Recording: the block is put, then the silence timer decides. *)
Lemma trigger_recording (st : Loop Block) (fr : Frame Block) :
  recording (self st) = true ->
  let s := put (Some (data fr))
               (set_pre_buffer
                  (Deque.append (pre_buffer (self st)) (data fr))
                  (self st)) in
  trigger cfg st fr
  = if Qltb (rms fr) (TRIGGER_THRESHOLD cfg) then
      match silence_start_time st with
      | None => mkLoop s (Some (now fr))
      | Some t0 =>
          if Qltb (MIN_SILENCE_TIME cfg) (now fr - t0) then
            mkLoop (stop_recording (now fr) s) None
          else mkLoop s (Some t0)
      end
    else mkLoop s None.
Proof.
  intros R s. unfold trigger. simpl. rewrite R. simpl. rewrite R.
  reflexivity.
Qed.

(** The status line touches the logger alone. *)
Lemma body_recording (st : Loop Block) (fr : Frame Block) :
  recording (self (monitor_body cfg st fr))
  = recording (self (trigger cfg st fr)).
Proof. unfold monitor_body. now destruct (status_due (now fr)). Qed.

Lemma body_pre_buffer (st : Loop Block) (fr : Frame Block) :
  pre_buffer (self (monitor_body cfg st fr))
  = pre_buffer (self (trigger cfg st fr)).
Proof. unfold monitor_body. now destruct (status_due (now fr)). Qed.

Lemma body_audio_queue (st : Loop Block) (fr : Frame Block) :
  audio_queue (self (monitor_body cfg st fr))
  = audio_queue (self (trigger cfg st fr)).
Proof. unfold monitor_body. now destruct (status_due (now fr)). Qed.

Lemma body_detections (st : Loop Block) (fr : Frame Block) :
  detections (self (monitor_body cfg st fr))
  = detections (self (trigger cfg st fr)).
Proof. unfold monitor_body. now destruct (status_due (now fr)). Qed.

Lemma body_silence (st : Loop Block) (fr : Frame Block) :
  silence_start_time (monitor_body cfg st fr)
  = silence_start_time (trigger cfg st fr).
Proof. unfold monitor_body. now destruct (status_due (now fr)). Qed.

Lemma body_stop_event (st : Loop Block) (fr : Frame Block) :
  writer_thread_stop_event (self (monitor_body cfg st fr))
  = writer_thread_stop_event (self (trigger cfg st fr)).
Proof. unfold monitor_body. now destruct (status_due (now fr)). Qed.

(** In every branch the pre-buffer is the old one with the block pushed. *)
Lemma trigger_pre_buffer (st : Loop Block) (fr : Frame Block) :
  pre_buffer (self (trigger cfg st fr))
  = Deque.append (pre_buffer (self st)) (data fr).
Proof.
  destruct (recording (self st)) eqn:R.
  - rewrite (trigger_recording st fr R).
    destruct (Qltb (rms fr) (TRIGGER_THRESHOLD cfg));
      [destruct (silence_start_time st) as [t0|];
       [destruct (Qltb (MIN_SILENCE_TIME cfg) (now fr - t0))|]|];
      reflexivity.
  - destruct (Qltb (TRIGGER_THRESHOLD cfg) (rms fr)) eqn:L.
    + rewrite (trigger_listening_loud st fr R L). reflexivity.
    + rewrite (trigger_listening_quiet st fr R L). reflexivity.
Qed.

Lemma iteration_pre_buffer (st : Loop Block) (r : ReadResult Block) :
  pre_buffer (self (monitor_iteration cfg st r))
  = match r with
    | Overflow => pre_buffer (self st)
    | Read fr => Deque.append (pre_buffer (self st)) (data fr)
    end.
Proof.
  destruct r as [|fr]; simpl.
  - reflexivity.
  - rewrite body_pre_buffer. apply trigger_pre_buffer.
Qed.

Lemma loop_pre_buffer (reads : list (ReadResult Block)) (st : Loop Block) :
  pre_buffer (self (fold_left (monitor_iteration cfg) reads st))
  = Deque.extend (pre_buffer (self st)) (blocks reads).
Proof.
  revert st. induction reads as [|r reads IH]; intros st; simpl.
  - reflexivity.
  - rewrite IH, iteration_pre_buffer. destruct r; reflexivity.
Qed.
Lemma init_some (s : Self Block) :
  init Block cfg = Some s ->
  exists n, pre_buffer_maxlen cfg = Some n
            /\ s = mkSelf false (Deque.empty n) [] false 0 [].
Proof.
  unfold init. destruct (pre_buffer_maxlen cfg) as [n|]; [|discriminate].
  intros H. exists n. split; congruence.
Qed.

(** C5 (as amended): the pre-trigger buffer is built with capacity N, the
    double-precision value of pre-roll seconds x sample rate / block length
    (as line 38 computes it) rounded DOWN: its floor when it is zero or
    more, 0 when it is zero or less; N is at most [sys.maxsize].  Over
    every sequence of reads the buffer keeps that capacity, never holds
    more than N blocks, and holds exactly the last N blocks read, oldest
    first; a push on a buffer that is not full appends, a push on a full
    one drops the oldest item. *)
Theorem pre_buffer_capacity_floor_and_ring (s : Self Block) :
  init Block cfg = Some s ->
  let N := Deque.maxlen (pre_buffer s) in
  ((exists v : Q,
       Double.value (pre_buffer_blocks cfg) = Some v
       /\ ((0 <= v)%Q -> Z.of_nat N = Qfloor v)
       /\ ((v <= 0)%Q -> N = 0))
   /\ (Z.of_nat N <= ssize_max)%Z)
  /\ (forall reads : list (ReadResult Block),
        let d := pre_buffer (self (monitor_loop cfg s reads)) in
        Deque.maxlen d = N
        /\ length (Deque.items d) <= N
        /\ Deque.items d = lastn N (blocks reads))
  /\ (forall (d : Deque.deque Block) (x : Block),
        length (Deque.items d) < Deque.maxlen d ->
        Deque.items (Deque.append d x) = Deque.items d ++ [x])
  /\ (forall (d : Deque.deque Block) (x : Block),
        length (Deque.items d) = Deque.maxlen d ->
        Deque.items (Deque.append d x) = tl (Deque.items d ++ [x])).
Proof.
  intros Hinit N.
  destruct (init_some Hinit) as (n & Hn & ->). subst N. simpl.
  split; [exact (DoubleFacts.maxlen_of_double cfg Hn)|].
  repeat split.
  - unfold monitor_loop. rewrite loop_pre_buffer. simpl.
    apply DequeFacts.extend_maxlen.
  - unfold monitor_loop. rewrite loop_pre_buffer. simpl.
    pose proof (DequeFacts.extend_bounded (blocks reads)
                  (DequeFacts.empty_bounded Block n)) as B.
    unfold Deque.bounded in B. rewrite DequeFacts.extend_maxlen in B.
    exact B.
  - unfold monitor_loop. rewrite loop_pre_buffer. simpl.
    rewrite DequeFacts.extend_items by apply DequeFacts.empty_bounded.
    reflexivity.
  - intros d x H. unfold Deque.append. simpl.
    rewrite length_app. simpl.
    destruct (Nat.ltb_spec (Deque.maxlen d) (length (Deque.items d) + 1));
      [lia | reflexivity].
  - intros d x H. unfold Deque.append. simpl.
    rewrite length_app. simpl.
    destruct (Nat.ltb_spec (Deque.maxlen d) (length (Deque.items d) + 1));
      [reflexivity | lia].
Qed.

(** C10 (as amended): on every processed block, whether the loop is
    listening or recording, starts a clip or finalizes one, the pre-buffer
    after the iteration is the pre-buffer before it with the block pushed
    (so it is never cleared); a clip that starts is seeded from the buffer
    as it stands after that push; when the capacity is at least 1 the seed
    ends with the triggering block itself; and a later clip's seed can hold
    a block already written into the previous clip. *)
Theorem pre_buffer_pushed_before_decision (st : Loop Block)
        (fr : Frame Block) :
  let st' := monitor_body cfg st fr in
  let pb := Deque.append (pre_buffer (self st)) (data fr) in
  pre_buffer (self st') = pb
  /\ (recording (self st) = false ->
      (TRIGGER_THRESHOLD cfg < rms fr)%Q ->
      audio_queue (self st')
      = audio_queue (self st) ++ map Some (Deque.to_list pb)
        ++ [Some (data fr)])
  /\ (Deque.bounded (pre_buffer (self st)) ->
      1 <= Deque.maxlen (pre_buffer (self st)) ->
      exists older, Deque.to_list pb = older ++ [data fr])
  /\ (exists (c : Config) (s : Self nat),
        init nat c = Some s
        /\ audio_queue
             (self (monitor_loop c s
                      [Read (mkFrame 1 80 1); Read (mkFrame 2 5 2);
                       Read (mkFrame 3 5 6); Read (mkFrame 4 80 7)]))
           = [Some 1; Some 1; Some 2; Some 3; None;
              Some 3; Some 4; Some 4]).
Proof.
  intros st' pb. subst st'. repeat split.
  - rewrite body_pre_buffer. apply trigger_pre_buffer.
  - intros R L. apply Qltb_lt in L. rewrite body_audio_queue.
    rewrite (trigger_listening_loud st fr R L). simpl.
    now rewrite <- app_assoc.
  - intros B H. unfold Deque.to_list. subst pb.
    rewrite DequeFacts.append_items by exact B.
    apply lastn_snoc_in. exact H.
  - exists small_config.
    exists (mkSelf false (Deque.empty 2) [] false 0 []).
    split; reflexivity.
Qed.

(** *** Hysteresis *)

Lemma recording_step_fields (st : Loop Block) (fr : Frame Block) :
  recording (self st) = true ->
  let st' := monitor_body cfg st fr in
  ((rms fr < TRIGGER_THRESHOLD cfg)%Q ->
   silence_start_time st = None ->
   recording (self st') = true
   /\ silence_start_time st' = Some (now fr)
   /\ audio_queue (self st') = audio_queue (self st) ++ [Some (data fr)]
   /\ detections (self st') = detections (self st))
  /\ ((rms fr < TRIGGER_THRESHOLD cfg)%Q ->
      forall t0, silence_start_time st = Some t0 ->
      (now fr - t0 <= MIN_SILENCE_TIME cfg)%Q ->
      recording (self st') = true
      /\ silence_start_time st' = Some t0
      /\ audio_queue (self st') = audio_queue (self st) ++ [Some (data fr)]
      /\ detections (self st') = detections (self st))
  /\ ((rms fr < TRIGGER_THRESHOLD cfg)%Q ->
      forall t0, silence_start_time st = Some t0 ->
      (MIN_SILENCE_TIME cfg < now fr - t0)%Q ->
      recording (self st') = false
      /\ silence_start_time st' = None
      /\ audio_queue (self st')
         = audio_queue (self st) ++ [Some (data fr); None]
      /\ detections (self st') = detections (self st) + 1)
  /\ ((TRIGGER_THRESHOLD cfg <= rms fr)%Q ->
      recording (self st') = true
      /\ silence_start_time st' = None
      /\ audio_queue (self st') = audio_queue (self st) ++ [Some (data fr)]
      /\ detections (self st') = detections (self st)).
Proof.
  intros R st'. subst st'.
  rewrite body_recording, body_silence, body_audio_queue, body_detections.
  rewrite (trigger_recording st fr R).
  repeat match goal with |- _ /\ _ => split end.
  - intros L E. apply Qltb_lt in L. rewrite L, E. simpl. auto.
  - intros L t0 E H. apply Qltb_lt in L. apply Qltb_ge in H.
    rewrite L, E, H. simpl. auto.
  - intros L t0 E H. apply Qltb_lt in L. apply Qltb_lt in H.
    rewrite L, E, H. simpl. rewrite <- app_assoc. auto.
  - intros L. apply Qltb_ge in L. rewrite L. simpl. auto.
Qed.

(** While the timer runs, quiet blocks that arrive no later than the
    minimum silence after its start keep the recording open. *)
Lemma quiet_run_keeps_recording (frs : list (Frame Block)) :
  forall (st : Loop Block) (t0 : Q),
    recording (self st) = true ->
    silence_start_time st = Some t0 ->
    Forall (fun fr => (rms fr < TRIGGER_THRESHOLD cfg)%Q
                      /\ (now fr - t0 <= MIN_SILENCE_TIME cfg)%Q) frs ->
    let st' := fold_left (monitor_iteration cfg) (map (@Read Block) frs) st in
    recording (self st') = true
    /\ silence_start_time st' = Some t0
    /\ audio_queue (self st')
       = audio_queue (self st) ++ map (fun fr => Some (data fr)) frs
    /\ detections (self st') = detections (self st).
Proof.
  induction frs as [|fr frs IH]; intros st t0 R E F; simpl.
  - rewrite app_nil_r. auto.
  - inversion F as [|? ? [L H] F']; subst.
    destruct (recording_step_fields st fr R) as (_ & Hb & _ & _).
    destruct (Hb L t0 E H) as (R1 & E1 & Q1 & D1).
    destruct (IH (monitor_body cfg st fr) t0 R1 E1 F') as (R2 & E2 & Q2 & D2).
    repeat split; try assumption.
    + rewrite Q2, Q1, <- app_assoc. reflexivity.
    + congruence.
Qed.

(** C2 (as amended): while Recording, with threshold T and minimum silence
    S: a reading below T with the timer unset starts the timer at the
    current time and keeps Recording; a reading below T with the timer
    running for at most S keeps Recording and the timer; a reading below T
    processed when the timer has run for strictly more than S finalizes
    the clip (the block, then the end-of-clip marker, are put; the counter
    goes up by one; the timer is unset) and returns to Listening; a reading
    at or above T keeps Recording and unsets the timer; hence a run of
    readings below T all within S of the timer start leaves the state
    Recording with nothing finalized. *)
Theorem silence_hysteresis (st : Loop Block) (fr : Frame Block) :
  recording (self st) = true ->
  let st' := monitor_body cfg st fr in
  ((rms fr < TRIGGER_THRESHOLD cfg)%Q ->
   silence_start_time st = None ->
   recording (self st') = true
   /\ silence_start_time st' = Some (now fr)
   /\ audio_queue (self st') = audio_queue (self st) ++ [Some (data fr)]
   /\ detections (self st') = detections (self st))
  /\ ((rms fr < TRIGGER_THRESHOLD cfg)%Q ->
      forall t0, silence_start_time st = Some t0 ->
      (now fr - t0 <= MIN_SILENCE_TIME cfg)%Q ->
      recording (self st') = true
      /\ silence_start_time st' = Some t0
      /\ audio_queue (self st') = audio_queue (self st) ++ [Some (data fr)]
      /\ detections (self st') = detections (self st))
  /\ ((rms fr < TRIGGER_THRESHOLD cfg)%Q ->
      forall t0, silence_start_time st = Some t0 ->
      (MIN_SILENCE_TIME cfg < now fr - t0)%Q ->
      recording (self st') = false
      /\ silence_start_time st' = None
      /\ audio_queue (self st')
         = audio_queue (self st) ++ [Some (data fr); None]
      /\ detections (self st') = detections (self st) + 1)
  /\ ((TRIGGER_THRESHOLD cfg <= rms fr)%Q ->
      recording (self st') = true
      /\ silence_start_time st' = None
      /\ audio_queue (self st') = audio_queue (self st) ++ [Some (data fr)]
      /\ detections (self st') = detections (self st))
  /\ (forall (frs : list (Frame Block)) (t0 : Q),
        silence_start_time st = Some t0 ->
        Forall (fun f => (rms f < TRIGGER_THRESHOLD cfg)%Q
                         /\ (now f - t0 <= MIN_SILENCE_TIME cfg)%Q) frs ->
        let st'' :=
          fold_left (monitor_iteration cfg) (map (@Read Block) frs) st in
        recording (self st'') = true
        /\ silence_start_time st'' = Some t0
        /\ markers (audio_queue (self st'')) = markers (audio_queue (self st))
        /\ detections (self st'') = detections (self st)).
Proof.
  intros R st'.
  destruct (recording_step_fields st fr R) as (Ha & Hb & Hc & Hd).
  repeat match goal with |- _ /\ _ => split end; try assumption.
  intros frs t0 E F st''.
  destruct (quiet_run_keeps_recording st R E F) as (R2 & E2 & Q2 & D2).
  repeat split; try assumption.
  subst st''. rewrite Q2. unfold markers. rewrite filter_app, length_app.
  assert (Z : filter is_marker (map (fun f : Frame Block => Some (data f)) frs)
              = []).
  { clear. induction frs; simpl; auto. }
  rewrite Z. simpl. lia.
Qed.

(** C8: a reading equal to the threshold does not start a recording while
    Listening (nothing is put, the state and the timer stay), and while
    Recording it counts as sound: the recording goes on, the block is put,
    nothing is finalized and the silence timer is unset. *)
Theorem reading_equal_to_threshold (st : Loop Block) (fr : Frame Block) :
  (rms fr == TRIGGER_THRESHOLD cfg)%Q ->
  let st' := monitor_body cfg st fr in
  (recording (self st) = false ->
   recording (self st') = false
   /\ audio_queue (self st') = audio_queue (self st)
   /\ detections (self st') = detections (self st)
   /\ silence_start_time st' = silence_start_time st)
  /\ (recording (self st) = true ->
      recording (self st') = true
      /\ silence_start_time st' = None
      /\ audio_queue (self st') = audio_queue (self st) ++ [Some (data fr)]
      /\ detections (self st') = detections (self st)).
Proof.
  intros E st'. subst st'.
  rewrite body_recording, body_silence, body_audio_queue, body_detections.
  split; intros R.
  - assert (L : Qltb (TRIGGER_THRESHOLD cfg) (rms fr) = false).
    { apply Qltb_ge. rewrite E. apply Qle_refl. }
    rewrite (trigger_listening_quiet st fr R L). simpl. auto.
  - rewrite (trigger_recording st fr R).
    assert (L : Qltb (rms fr) (TRIGGER_THRESHOLD cfg) = false).
    { apply Qltb_ge. rewrite E. apply Qle_refl. }
    rewrite L. simpl. auto.
Qed.

(** *** Starts and stops *)

Lemma episodes_app (l1 l2 : list LogRecord) :
  forall r, episodes r (l1 ++ l2)
            = match episodes r l1 with
              | Some r' => episodes r' l2
              | None => None
              end.
Proof.
  induction l1 as [|m l1 IH]; intros r; simpl.
  - reflexivity.
  - destruct m; destruct r; simpl; auto.
Qed.

Lemma starts_app (l1 l2 : list LogRecord) :
  starts (l1 ++ l2) = starts l1 + starts l2.
Proof. unfold starts. now rewrite filter_app, length_app. Qed.

Lemma stops_app (l1 l2 : list LogRecord) :
  stops (l1 ++ l2) = stops l1 + stops l2.
Proof. unfold stops. now rewrite filter_app, length_app. Qed.

Lemma markers_app (A : Type) (q1 q2 : list (option A)) :
  markers (q1 ++ q2) = markers q1 + markers q2.
Proof. unfold markers. now rewrite filter_app, length_app. Qed.

Lemma markers_blocks (A : Type) (l : list A) : markers (map Some l) = 0.
Proof. unfold markers. induction l; simpl; auto. Qed.

Lemma accounted_log (st : Loop Block) (m : LogRecord) :
  is_started m = false -> is_stopped m = false ->
  accounted st ->
  accounted (mkLoop (log m (self st)) (silence_start_time st)).
Proof.
  intros S1 S2 (E & P & M & T). unfold accounted. simpl.
  rewrite episodes_app, E, starts_app, stops_app.
  unfold starts, stops in *. simpl. rewrite S1, S2. simpl.
  repeat split; try lia.
  destruct m; simpl in *; try discriminate; reflexivity.
Qed.

Lemma accounted_trigger (st : Loop Block) (fr : Frame Block) :
  accounted st -> accounted (trigger cfg st fr).
Proof.
  intros (E & P & M & T). unfold accounted.
  destruct (recording (self st)) eqn:R.
  - rewrite (trigger_recording st fr R).
    destruct (Qltb (rms fr) (TRIGGER_THRESHOLD cfg));
      [destruct (silence_start_time st) as [t0|];
       [destruct (Qltb (MIN_SILENCE_TIME cfg) (now fr - t0))|]|];
      simpl; rewrite ?R, ?episodes_app, ?E, ?starts_app, ?stops_app,
             ?markers_app; simpl;
      repeat split; try (unfold markers in *; simpl; lia);
      try (unfold starts, stops in *; simpl; lia); try assumption;
      try reflexivity.
  - destruct (Qltb (TRIGGER_THRESHOLD cfg) (rms fr)) eqn:L.
    + rewrite (trigger_listening_loud st fr R L). simpl.
      rewrite !episodes_app, E, !starts_app, !stops_app, !markers_app,
              markers_blocks.
      simpl. repeat split; try (unfold markers in *; simpl; lia);
        unfold starts, stops in *; simpl; lia.
    + rewrite (trigger_listening_quiet st fr R L). simpl. rewrite R.
      repeat split; assumption.
Qed.

Lemma accounted_iteration (st : Loop Block) (r : ReadResult Block) :
  accounted st -> accounted (monitor_iteration cfg st r).
Proof.
  intros H. destruct r as [|fr]; simpl.
  - apply accounted_log; auto.
  - unfold monitor_body. destruct (status_due (now fr)).
    + apply accounted_log; auto. apply accounted_trigger. exact H.
    + apply accounted_trigger. exact H.
Qed.

Lemma accounted_loop (reads : list (ReadResult Block)) :
  forall st, accounted st ->
             accounted (fold_left (monitor_iteration cfg) reads st).
Proof.
  induction reads as [|r reads IH]; intros st H; simpl.
  - exact H.
  - apply IH. apply accounted_iteration. exact H.
Qed.

(** C3: over every sequence of reads, from the state [__init__] builds,
    the start and stop records of the log alternate, a start first (no
    two starts without a stop between them, no stop without a start), and
    the log ends in the recording flag; the stops, the end-of-clip markers
    put and the detection counter are the same number, and the starts are
    that number plus one exactly while a recording is open: every closed
    episode has one marker and one increment. *)
Theorem starts_and_stops_alternate (s : Self Block)
        (reads : list (ReadResult Block)) :
  init Block cfg = Some s ->
  let st := monitor_loop cfg s reads in
  episodes false (logger (self st)) = Some (recording (self st))
  /\ stops (logger (self st)) = detections (self st)
  /\ markers (audio_queue (self st)) = detections (self st)
  /\ starts (logger (self st))
     = detections (self st) + (if recording (self st) then 1 else 0).
Proof.
  intros Hinit st. destruct (init_some Hinit) as (n & _ & ->).
  apply (accounted_loop reads). unfold accounted. simpl. auto.
Qed.
End Facts.

(** C5 (as stated) fails: with the default configuration (2.0 s of
    pre-roll, 44100 Hz, blocks of 512 samples) the capacity is 172, the
    ceiling of 172.27 is 173. *)
Lemma default_capacity_is_not_the_ceiling :
  pre_buffer_maxlen default_config = Some 172
  /\ Qceiling (PRE_RECORD_BUFFER default_config
               * inject_Z (RATE default_config)
               / inject_Z (CHUNK default_config))%Q = 173%Z.
Proof. split; reflexivity. Qed.

Lemma pre_buffer_capacity_floor_and_ring_witness :
  init nat default_config
  = Some (mkSelf false (Deque.empty 172) [] false 0 [])
  /\ (exists v : Q,
        Double.value (pre_buffer_blocks default_config) = Some v
        /\ ((0 <= v)%Q -> Z.of_nat 172 = Qfloor v)
        /\ ((v <= 0)%Q -> 172 = 0))
  /\ Deque.items
       (pre_buffer
          (self (monitor_loop default_config
                   (mkSelf false (Deque.empty 172) [] false 0 [])
                   [Read (mkFrame 7 5 1); Overflow; Read (mkFrame 8 5 2)])))
     = lastn 172 [7; 8].
Proof.
  split; [reflexivity|].
  destruct (pre_buffer_capacity_floor_and_ring (Block := nat) default_config
              (s := mkSelf false (Deque.empty 172) [] false 0 [])
              eq_refl) as ((F & _) & H & _).
  split.
  - exact F.
  - destruct (H [Read (mkFrame 7 5 1); Overflow; Read (mkFrame 8 5 2)])
      as (_ & _ & E).
    exact E.
Defined.

(** Line 38 in doubles: 0.7 s at 44100 Hz in blocks of 441 gives 69 blocks
    (the exact quotient is 70), 0.3 s at 8000 Hz in blocks of 100 gives 24
    (the exact quotient is below 24 only in doubles: 0.3 is read as a double
    above it), and a capacity beyond [sys.maxsize] is refused. *)
Lemma capacity_in_doubles :
  pre_buffer_maxlen (mkConfig 5 50 44100 441 50 (7 # 10) 5 2 [120%Z])
  = Some 69
  /\ pre_buffer_maxlen (mkConfig 5 50 8000 100 50 (3 # 10) 5 2 [120%Z])
     = Some 24
  /\ pre_buffer_maxlen
       (mkConfig 5 50 44100 512 50 (10 ^ 30 # 1) 5 2 [120%Z])
     = None.
Proof. repeat split; vm_compute; reflexivity. Qed.

(** C1 (code at the failing input): three quiet blocks 1, 2, 3 then a loud
    block 4, capacity 2.  The claim gives the clip 2, 3, 4; the queue holds
    3, 4, 4: the triggering block was pushed to the pre-buffer before the
    snapshot and is put a second time after it. *)
Theorem trigger_block_is_enqueued_twice :
  init nat small_config = Some (mkSelf false (Deque.empty 2) [] false 0 [])
  /\ audio_queue
       (self (monitor_loop small_config
                (mkSelf false (Deque.empty 2) [] false 0 [])
                [Read (mkFrame 1 5 1); Read (mkFrame 2 5 2);
                 Read (mkFrame 3 5 3); Read (mkFrame 4 80 4)]))
     = [Some 3; Some 4; Some 4].
Proof. split; reflexivity. Qed.

(** C10 (as stated) fails at capacity 0: the seed of the clip is empty, it
    does not hold the triggering block; the clip holds the block once. *)
Lemma seed_is_empty_at_capacity_zero :
  let s := mkSelf false (Deque.empty 0) [] false 0 [] in
  let st := monitor_body no_preroll_config (mkLoop s None)
                         (mkFrame 4 80 4) in
  init nat no_preroll_config = Some s
  /\ recording (self st) = true
  /\ ~ In 4 (Deque.to_list (pre_buffer (self st)))
  /\ audio_queue (self st) = [Some 4].
Proof.
  repeat split; try reflexivity. simpl. intros [].
Qed.

Lemma pre_buffer_pushed_before_decision_witness :
  let st := mkLoop (mkSelf false (Deque.mk 2 [2; 3]) [] false 0 []) None in
  let fr := mkFrame 4 80 4 in
  audio_queue (self (monitor_body small_config st fr))
  = [] ++ map Some (Deque.to_list (Deque.append (Deque.mk 2 [2; 3]) 4))
    ++ [Some 4]
  /\ exists older,
      Deque.to_list (Deque.append (Deque.mk 2 [2; 3]) 4) = older ++ [4].
Proof.
  intros st fr.
  destruct (pre_buffer_pushed_before_decision small_config st fr)
    as (_ & Hq & Hseed & _).
  split.
  - apply Hq; reflexivity.
  - apply Hseed; unfold Deque.bounded; simpl; lia.
Defined.

(** C2 (as stated) fails when the silence has lasted exactly S: block 1
    triggers at time 9, block 2 is quiet at time 10 and starts the timer,
    block 3 is quiet at time 12, two seconds later, with S = 2.  The claim
    finalizes the clip there; the code is still Recording, has put no
    marker and counted nothing. *)
Lemma silence_of_exactly_the_minimum_keeps_recording :
  let s := mkSelf false (Deque.empty 2) [] false 0 [] in
  let st := monitor_loop small_config s
              [Read (mkFrame 1 80 9); Read (mkFrame 2 5 10)] in
  let fr := mkFrame 3 5 12 in
  let st' := monitor_body small_config st fr in
  init nat small_config = Some s
  /\ recording (self st) = true
  /\ silence_start_time st = Some 10%Q
  /\ (rms fr < TRIGGER_THRESHOLD small_config)%Q
  /\ (MIN_SILENCE_TIME small_config <= now fr - 10)%Q
  /\ recording (self st') = true
  /\ markers (audio_queue (self st')) = 0
  /\ detections (self st') = 0.
Proof.
  repeat split; try reflexivity. discriminate.
Qed.

Lemma silence_hysteresis_witness :
  let st := mkLoop (mkSelf true (Deque.mk 2 [1; 2]) [Some 1; Some 2]
                           false 0 [])
                   (Some 10%Q) in
  let st' := monitor_body small_config st (mkFrame 3 5 13) in
  recording (self st') = false
  /\ audio_queue (self st') = [Some 1; Some 2] ++ [Some 3; None]
  /\ detections (self st') = 0 + 1.
Proof.
  intros st st'.
  destruct (silence_hysteresis small_config st (mkFrame 3 5 13) eq_refl)
    as (_ & _ & Hc & _).
  assert (L : (rms (mkFrame 3 5 13) < TRIGGER_THRESHOLD small_config)%Q)
    by reflexivity.
  assert (H : (MIN_SILENCE_TIME small_config
               < now (mkFrame 3 5 13) - 10)%Q) by reflexivity.
  destruct (Hc L 10%Q eq_refl H) as (R & _ & A & D).
  repeat split; assumption.
Defined.

Lemma reading_equal_to_threshold_witness :
  let st := mkLoop (mkSelf true (Deque.mk 2 [1; 2]) [Some 1; Some 2]
                           false 0 [])
                   (Some 10%Q) in
  let st' := monitor_body small_config st (mkFrame 3 50 11) in
  recording (self st') = true /\ silence_start_time st' = None.
Proof.
  intros st st'.
  assert (E : (rms (mkFrame 3 50 11) == TRIGGER_THRESHOLD small_config)%Q)
    by reflexivity.
  destruct (reading_equal_to_threshold small_config st (mkFrame 3 50 11) E)
    as (_ & Hr).
  destruct (Hr eq_refl) as (R & S & _).
  split; assumption.
Defined.

Lemma starts_and_stops_alternate_witness :
  let s := mkSelf false (Deque.empty 2) [] false 0 [] in
  let st := monitor_loop small_config s
              [Read (mkFrame 1 80 9); Read (mkFrame 2 5 10);
               Read (mkFrame 3 5 13); Read (mkFrame 4 80 14)] in
  starts (logger (self st)) = detections (self st) + 1
  /\ markers (audio_queue (self st)) = detections (self st).
Proof.
  intros s st.
  destruct (starts_and_stops_alternate small_config (s := s)
              [Read (mkFrame 1 80 9); Read (mkFrame 2 5 10);
               Read (mkFrame 3 5 13); Read (mkFrame 4 80 14)] eq_refl)
    as (_ & _ & M & T).
  split; [exact T | exact M].
Defined.

End MonitorFacts.

(** ** The queue between the two threads *)

Module PipelineFacts.
Import Monitor.

Section Facts.
Variable Block : Type.
Variable cfg : Config.

Lemma step_ledger (sys : System Block) (a : Action Block) :
  no_iteration [a] = true ->
  observed (step cfg sys a) ++ audio_queue (self (mon (step cfg sys a)))
  = (observed sys ++ audio_queue (self (mon sys))) ++ puts [a].
Proof.
  destruct a as [x| r | t |]; simpl; intros H.
  - now rewrite ?app_nil_r, ?app_assoc.
  - discriminate.
  - rewrite ?app_nil_r. unfold writer_step.
    destruct (pc (wr sys)); simpl; try reflexivity.
    destruct (audio_queue (self (mon sys))) as [|x q] eqn:E; simpl.
    + now rewrite E.
    + now rewrite <- app_assoc.
  - now rewrite ?app_nil_r.
Qed.

Lemma no_iteration_cons (a : Action Block) (sched : list (Action Block)) :
  no_iteration (a :: sched) = true ->
  no_iteration [a] = true /\ no_iteration sched = true.
Proof.
  unfold no_iteration. simpl. rewrite !andb_true_iff. tauto.
Qed.

(** Nothing is dropped and nothing overtakes: what was observed, then what
    is queued, is what was there and what was put, in the order of the
    puts. *)
Lemma run_ledger (sched : list (Action Block)) :
  forall sys : System Block,
    no_iteration sched = true ->
    observed (run cfg sys sched)
    ++ audio_queue (self (mon (run cfg sys sched)))
    = (observed sys ++ audio_queue (self (mon sys))) ++ puts sched.
Proof.
  induction sched as [|a sched IH]; intros sys H.
  - simpl. now rewrite app_nil_r.
  - apply no_iteration_cons in H. destruct H as [Ha Hs].
    change (run cfg sys (a :: sched)) with (run cfg (step cfg sys a) sched).
    rewrite (IH _ Hs), (step_ledger sys a Ha).
    replace (puts (a :: sched)) with (puts [a] ++ puts sched)
      by (simpl; now rewrite app_nil_r).
    now rewrite <- !app_assoc.
Qed.

Lemma step_absorb (sys : System Block) (a : Action Block) :
  exists new,
    observed (step cfg sys a) = observed sys ++ new
    /\ writer_view (step cfg sys a) = fold_left absorb new (writer_view sys).
Proof.
  destruct a as [x| r | t |]; simpl;
    try (exists []; simpl; now rewrite app_nil_r).
  unfold writer_step.
  destruct (pc (wr sys)); try (exists []; simpl; now rewrite app_nil_r).
  destruct (audio_queue (self (mon sys))) as [|x q];
    [exists []; simpl; now rewrite app_nil_r|].
  exists [x]. split; [reflexivity|].
  unfold writer_view, writer_item. simpl.
  destruct x as [d|]; simpl; [reflexivity|].
  destruct (recording_data (wr sys)); simpl; [reflexivity|].
  now rewrite map_app.
Qed.

(** The writer's files and clip at hand are those the observed items
    spell. *)
Lemma run_absorb (sched : list (Action Block)) :
  forall sys : System Block,
  exists new,
    observed (run cfg sys sched) = observed sys ++ new
    /\ writer_view (run cfg sys sched)
       = fold_left absorb new (writer_view sys).
Proof.
  induction sched as [|a sched IH]; intros sys.
  - exists []. simpl. now rewrite app_nil_r.
  - change (run cfg sys (a :: sched)) with (run cfg (step cfg sys a) sched).
    destruct (IH (step cfg sys a)) as (n2 & O2 & V2).
    destruct (step_absorb sys a) as (n1 & O1 & V1).
    exists (n1 ++ n2). split.
    + now rewrite O2, O1, app_assoc.
    + now rewrite V2, V1, fold_left_app.
Qed.

Lemma absorb_blocks (bs : list Block) :
  forall (done : list (list Block)) (cur : list Block),
    fold_left absorb (map Some bs) (done, cur) = (done, cur ++ bs).
Proof.
  induction bs as [|b bs IH]; intros done cur; simpl.
  - now rewrite app_nil_r.
  - rewrite IH, <- app_assoc. reflexivity.
Qed.

Lemma absorb_clip (bs : list Block) :
  fold_left absorb (map Some bs ++ [None]) ([], [])
  = (match bs with [] => [] | _ :: _ => [bs] end, []).
Proof.
  rewrite fold_left_app, absorb_blocks. simpl.
  destruct bs; reflexivity.
Qed.

(** A prefix of "blocks, then the marker" that holds the marker is all of
    it. *)
Lemma marker_is_last (bs : list Block) (obs rest : list (option Block)) :
  obs ++ rest = map Some bs ++ [None] ->
  In None obs ->
  obs = map Some bs ++ [None] /\ rest = [].
Proof.
  intros E I. destruct rest as [|y rest'] using rev_ind.
  - now rewrite app_nil_r in E.
  - clear IHrest'. rewrite app_assoc in E. apply app_inj_tail in E.
    destruct E as [E _]. exfalso.
    assert (I' : In None (map Some bs)).
    { rewrite <- E. apply in_or_app. now left. }
    apply in_map_iff in I'. destruct I' as (b & Hb & _). discriminate.
Qed.

(** With the stop event clear, the writer takes a queued item in two steps:
    the test of the loop, then the [get]. *)
Lemma drain (q : list (option Block)) :
  forall (sys : System Block) (ts : list Q),
    writer_thread_stop_event (self (mon sys)) = false ->
    pc (wr sys) = AtWhile ->
    audio_queue (self (mon sys)) = q ->
    length ts = 2 * length q ->
    let sys' := run cfg sys (map (@WriterStep Block) ts) in
    observed sys' = observed sys ++ q
    /\ audio_queue (self (mon sys')) = []
    /\ pc (wr sys') = AtWhile.
Proof.
  induction q as [|x q IH]; intros sys ts Hs P E L.
  - destruct ts; [|discriminate]. simpl. now rewrite app_nil_r.
  - destruct ts as [|t1 [|t2 ts]]; simpl in L; try lia.
    change (run cfg sys (map (@WriterStep Block) (t1 :: t2 :: ts)))
      with (run cfg (writer_step t2 (writer_step t1 sys))
                (map (@WriterStep Block) ts)).
    assert (E1 : writer_step t1 sys
                 = mkSystem (mon sys)
                     (mkWriter InGet (recording_data (wr sys))
                               (timestamps (wr sys)) (files (wr sys)))
                     (observed sys)).
    { unfold writer_step. now rewrite P, Hs. }
    rewrite E1. unfold writer_step at 1. simpl. rewrite E.
    match goal with |- context [run cfg ?s _] => set (sys2 := s) end.
    destruct (IH sys2 ts) as (O & A & P2).
    + subst sys2. simpl. exact Hs.
    + subst sys2. simpl.
      destruct x; [reflexivity|].
      destruct (recording_data (wr sys)); reflexivity.
    + reflexivity.
    + lia.
    + repeat split; try assumption.
      rewrite O. subst sys2. simpl. now rewrite <- app_assoc.
Qed.

Lemma run_puts (items : list (option Block)) :
  forall sys : System Block,
    let sys' := run cfg sys (map (@Put Block) items) in
    wr sys' = wr sys
    /\ observed sys' = observed sys
    /\ writer_thread_stop_event (self (mon sys'))
       = writer_thread_stop_event (self (mon sys))
    /\ audio_queue (self (mon sys')) = audio_queue (self (mon sys)) ++ items.
Proof.
  induction items as [|x items IH]; intros sys; simpl.
  - now rewrite app_nil_r.
  - destruct (IH (step cfg sys (Put x))) as (W & O & Hs & A).
    simpl in W, O, Hs, A. unfold run in *.
    rewrite W, O, Hs, A, <- app_assoc. auto.
Qed.

(** C4: on every schedule of puts, writer steps and shutdown, from a
    started system with an empty queue, what the writer has observed
    followed by what is still queued is the sequence of puts, in put
    order: nothing is dropped, nothing reordered.  When the puts are a
    sequence of blocks followed by one marker and the marker has been
    observed, every block was observed before it, in order, and the writer
    holds exactly that clip; and once all are put, two writer steps per
    item are enough for the writer to observe them all. *)
Theorem channel_is_fifo (s : Self Block) (sched : list (Action Block)) :
  audio_queue s = [] ->
  no_iteration sched = true ->
  let sys := run cfg (start s) sched in
  observed sys ++ audio_queue (self (mon sys)) = puts sched
  /\ (forall bs : list Block,
        puts sched = map Some bs ++ [None] ->
        In None (observed sys) ->
        observed sys = map Some bs ++ [None]
        /\ writer_view sys = (match bs with [] => [] | _ :: _ => [bs] end,
                              []))
  /\ (forall (bs : list Block) (ts : list Q),
        length ts = 2 * (length bs + 1) ->
        let done :=
          run cfg (start s)
              (map (@Put Block) (map Some bs ++ [None])
               ++ map (@WriterStep Block) ts) in
        observed done = map Some bs ++ [None]
        /\ writer_view done = (match bs with [] => [] | _ :: _ => [bs] end,
                               [])).
Proof.
  intros E N sys.
  assert (L : observed sys ++ audio_queue (self (mon sys)) = puts sched).
  { subst sys. rewrite (@run_ledger sched (start s) N). simpl. now rewrite E. }
  split; [exact L|]. split.
  - intros bs Hp I. rewrite Hp in L.
    destruct (@marker_is_last bs _ _ L I) as [O _].
    split; [exact O|].
    destruct (@run_absorb sched (start s)) as (new & On & V).
    simpl in On. fold sys in On, V. rewrite V, <- On, O.
    apply absorb_clip.
  - intros bs ts Hl done.
    assert (O : observed done = map Some bs ++ [None]).
    { subst done. unfold run. rewrite fold_left_app.
      fold (run cfg (start s) (map (@Put Block) (map Some bs ++ [None]))).
      destruct (@run_puts (map Some bs ++ [None]) (start s))
        as (W & Ob & Hs & A).
      simpl in W, Ob, Hs, A. rewrite E in A. simpl in A.
      match goal with
      | |- observed (fold_left _ _ ?x) = _ => set (sys1 := x) in *
      end.
      destruct (@drain (map Some bs ++ [None]) sys1 ts) as (Od & _ & _).
      + exact Hs.
      + now rewrite W.
      + exact A.
      + rewrite length_app, length_map. simpl. lia.
      + unfold run in Od. rewrite Od, Ob. reflexivity. }
    split; [exact O|].
    destruct (@run_absorb (map (@Put Block) (map Some bs ++ [None])
                           ++ map (@WriterStep Block) ts) (start s))
      as (new & On & V).
    simpl in On. fold done in On, V. rewrite V, <- On, O.
    apply absorb_clip.
Qed.

(** *** Shutdown *)

Lemma returned_stays (ts : list Q) :
  forall sys : System Block,
    pc (wr sys) = Returned ->
    run cfg sys (map (@WriterStep Block) ts) = sys.
Proof.
  induction ts as [|t ts IH]; intros sys P; simpl.
  - reflexivity.
  - assert (E : writer_step t sys = sys)
      by (unfold writer_step; now rewrite P).
    rewrite E. apply IH. exact P.
Qed.

(** With the stop event set, a writer that is not inside [get] takes
    nothing more and returns at its next step. *)
Lemma stopped_outside_get (ts : list Q) (sys : System Block) :
  writer_thread_stop_event (self (mon sys)) = true ->
  pc (wr sys) <> InGet ->
  let sys' := run cfg sys (map (@WriterStep Block) ts) in
  mon sys' = mon sys
  /\ observed sys' = observed sys
  /\ files (wr sys') = files (wr sys)
  /\ (1 <= length ts -> pc (wr sys') = Returned).
Proof.
  intros Hs P. destruct (pc (wr sys)) eqn:E; [|congruence|].
  - destruct ts as [|t ts].
    + simpl. repeat split. intros H. inversion H.
    + change (run cfg sys (map (@WriterStep Block) (t :: ts)))
        with (run cfg (writer_step t sys) (map (@WriterStep Block) ts)).
      assert (E1 : writer_step t sys
                   = mkSystem (mon sys)
                       (mkWriter Returned (recording_data (wr sys))
                                 (timestamps (wr sys)) (files (wr sys)))
                       (observed sys))
        by (unfold writer_step; now rewrite E, Hs).
      rewrite E1, returned_stays by reflexivity.
      simpl. auto.
  - rewrite returned_stays by exact E. simpl. auto.
Qed.

(** The step that ends a [get]: at most one item leaves the queue, and a
    block (not a marker) writes no file. *)
Lemma get_step (t : Q) (sys : System Block) :
  pc (wr sys) = InGet ->
  let sys1 := writer_step t sys in
  pc (wr sys1) = AtWhile
  /\ writer_thread_stop_event (self (mon sys1))
     = writer_thread_stop_event (self (mon sys))
  /\ recording (self (mon sys1)) = recording (self (mon sys))
  /\ detections (self (mon sys1)) = detections (self (mon sys))
  /\ (exists taken,
        length taken <= 1
        /\ audio_queue (self (mon sys)) = taken ++ audio_queue (self (mon sys1))
        /\ observed sys1 = observed sys ++ taken)
  /\ (markers (audio_queue (self (mon sys))) = 0 ->
      files (wr sys1) = files (wr sys)).
Proof.
  intros P. unfold writer_step. rewrite P.
  destruct (audio_queue (self (mon sys))) as [|x q] eqn:E; simpl.
  - repeat split; auto. exists []. simpl. rewrite E, app_nil_r. auto.
  - repeat split; auto.
    + unfold writer_item. destruct x; [reflexivity|].
      destruct (recording_data (wr sys)); reflexivity.
    + exists [x]. simpl. auto.
    + intros M. destruct x; [reflexivity|]. discriminate M.
Qed.

Lemma stopped_run (ts : list Q) (sys : System Block) :
  writer_thread_stop_event (self (mon sys)) = true ->
  let sys' := run cfg sys (map (@WriterStep Block) ts) in
  (exists taken,
      length taken <= 1
      /\ audio_queue (self (mon sys)) = taken ++ audio_queue (self (mon sys'))
      /\ observed sys' = observed sys ++ taken
      /\ (pc (wr sys) <> InGet -> taken = []))
  /\ recording (self (mon sys')) = recording (self (mon sys))
  /\ detections (self (mon sys')) = detections (self (mon sys))
  /\ (2 <= length ts -> pc (wr sys') = Returned)
  /\ (markers (audio_queue (self (mon sys))) = 0 ->
      files (wr sys') = files (wr sys)).
Proof.
  intros Hs sys'.
  destruct (pc (wr sys)) eqn:P.
  - destruct (@stopped_outside_get ts sys Hs) as (M & O & F & R);
      [congruence|]. fold sys' in M, O, F, R.
    rewrite M. repeat split; auto.
    + exists []. simpl. rewrite O, app_nil_r. auto.
    + intros H. apply R. lia.
  - destruct ts as [|t ts].
    + subst sys'. simpl. repeat split; auto.
      * exists []. simpl. rewrite app_nil_r. auto.
      * intros H. inversion H.
    + destruct (@get_step t sys P) as (P1 & S1 & R1 & D1 & (tk & L & A & O) & F1).
      subst sys'.
      change (run cfg sys (map (@WriterStep Block) (t :: ts)))
        with (run cfg (writer_step t sys) (map (@WriterStep Block) ts)).
      destruct (@stopped_outside_get ts (writer_step t sys)) as (M & O2 & F & R);
        [congruence | congruence |].
      rewrite M. repeat split; auto.
      * exists tk. rewrite O2. repeat split; auto. congruence.
      * intros H. apply R. simpl in H. lia.
      * intros Mk. rewrite F. auto.
  - destruct (@stopped_outside_get ts sys Hs) as (M & O & F & R);
      [congruence|]. fold sys' in M, O, F, R.
    rewrite M. repeat split; auto.
    + exists []. simpl. rewrite O, app_nil_r. auto.
    + intros H. apply R. lia.
Qed.

(** C6 (as amended): a shutdown while a recording is in progress only
    sets the stop event: [clean_up] puts no end-of-clip marker and leaves
    the queue, the recording flag, the detection counter and the writer as
    they are.  In the writer steps that follow, at most one more item
    leaves the queue (none unless the writer was already inside [get]), so
    the queue is not drained; the writer has returned after two steps; the
    recording flag and the counter never change; and when no marker is
    queued no further file is written: the blocks of the open clip are not
    saved. *)
Theorem shutdown_leaves_open_clip (sys : System Block) (ts : list Q) :
  let down := clean_up sys in
  let sys' := run cfg down (map (@WriterStep Block) ts) in
  (audio_queue (self (mon down)) = audio_queue (self (mon sys))
   /\ recording (self (mon down)) = recording (self (mon sys))
   /\ detections (self (mon down)) = detections (self (mon sys))
   /\ wr down = wr sys
   /\ writer_thread_stop_event (self (mon down)) = true)
  /\ (exists taken,
        length taken <= 1
        /\ audio_queue (self (mon sys)) = taken ++ audio_queue (self (mon sys'))
        /\ observed sys' = observed sys ++ taken
        /\ (pc (wr sys) <> InGet -> taken = []))
  /\ recording (self (mon sys')) = recording (self (mon sys))
  /\ detections (self (mon sys')) = detections (self (mon sys))
  /\ (2 <= length ts -> pc (wr sys') = Returned)
  /\ (markers (audio_queue (self (mon sys))) = 0 ->
      files (wr sys') = files (wr sys)).
Proof.
  intros down sys'.
  split; [repeat split|].
  exact (@stopped_run ts down eq_refl).
Qed.
End Facts.
Lemma channel_is_fifo_witness :
  let s := mkSelf false (Deque.empty 2) [] false 0 [] in
  let sched :=
    [Put (Some 1); WriterStep 1; Put (Some 2); WriterStep 2; WriterStep 3;
     WriterStep 4; Put None; WriterStep 5; WriterStep 6; WriterStep 7] in
  let sys := run small_config (start s) sched in
  observed sys = map Some [1; 2] ++ [None]
  /\ writer_view sys = ([[1; 2]], []).
Proof.
  intros s sched sys.
  destruct (@channel_is_fifo nat small_config s sched eq_refl eq_refl)
    as (_ & H & _).
  apply (H [1; 2]).
  - reflexivity.
  - simpl. auto.
Defined.

(** C6 (as stated) fails: two loud blocks open a recording, the writer
    takes one item, then the program is shut down and the writer is given
    four more steps.  The recording was open; no marker was put, the queue
    still holds two blocks, the writer has returned and no file was
    written. *)
Lemma shutdown_discards_open_clip :
  let s := mkSelf false (Deque.empty 2) [] false 0 [] in
  let before :=
    run small_config (start s)
        [Iteration (Read (mkFrame 1 80 1)); Iteration (Read (mkFrame 2 80 2));
         WriterStep 2; WriterStep 2] in
  let after :=
    run small_config before
        [CleanUp; WriterStep 3; WriterStep 4; WriterStep 5; WriterStep 6] in
  init nat small_config = Some s
  /\ recording (self (mon before)) = true
  /\ audio_queue (self (mon before)) = [Some 1; Some 2]
  /\ pc (wr after) = Returned
  /\ files (wr after) = []
  /\ audio_queue (self (mon after)) = [Some 1; Some 2]
  /\ markers (observed after ++ audio_queue (self (mon after))) = 0
  /\ detections (self (mon after)) = 0.
Proof. repeat split. Qed.

Lemma shutdown_leaves_open_clip_witness :
  let s := mkSelf false (Deque.empty 2) [] false 0 [] in
  let before :=
    run small_config (start s)
        [Iteration (Read (mkFrame 1 80 1)); Iteration (Read (mkFrame 2 80 2));
         WriterStep 2] in
  let after :=
    run small_config (clean_up before)
        (map (@WriterStep nat) [3%Q; 4%Q; 5%Q]) in
  pc (wr after) = Returned /\ files (wr after) = files (wr before).
Proof.
  intros s before after.
  destruct (@shutdown_leaves_open_clip nat small_config before
              [3%Q; 4%Q; 5%Q])
    as (_ & _ & _ & _ & Hpc & Hfiles).
  split.
  - apply Hpc. simpl. lia.
  - apply Hfiles. reflexivity.
Defined.

End PipelineFacts.

(** ** Energy features *)

Module FeaturesFacts.
Import Features.

Lemma wrap16_range (z : Z) : (-32768 <= wrap16 z <= 32767)%Z.
Proof.
  unfold wrap16.
  pose proof (Z.mod_pos_bound (z + 32768) 65536 eq_refl). lia.
Qed.

Lemma frombuffer_range_upto (n : nat) :
  forall data a,
    length data <= n ->
    frombuffer data = Some a ->
    Forall (fun z => (-32768 <= z <= 32767)%Z) a.
Proof.
  induction n as [|n IH]; intros data a L H.
  - destruct data; [|simpl in L; lia]. injection H as <-. constructor.
  - destruct data as [|lo [|hi rest]]; simpl in H.
    + injection H as <-. constructor.
    + discriminate.
    + destruct (frombuffer rest) as [l|] eqn:E; [|discriminate].
      injection H as <-. constructor.
      * apply wrap16_range.
      * apply (IH rest); [simpl in L; lia | exact E].
Qed.

Lemma frombuffer_range (data : list Byte.byte) :
  forall a, frombuffer data = Some a ->
            Forall (fun z => (-32768 <= z <= 32767)%Z) a.
Proof.
  intros a. apply (@frombuffer_range_upto (length data)). lia.
Qed.



Lemma Zsum_zeros (l : list Z) : Forall (fun z => z = 0%Z) l -> Zsum l = 0%Z.
Proof.
  induction 1 as [|z l Hz _ IH]; simpl; [reflexivity|]. now rewrite Hz, IH.
Qed.






Lemma sqrt_of_zero (e : Q) : (e == 0)%Q -> sqrt (Q2R e) = 0%R.
Proof.
  intros H. rewrite (Qeq_eqR _ _ H), RMicromega.Q2R_0. apply sqrt_0.
Qed.



Lemma lfilter_length (b : list Q) (a0 : Q) (a' : list Q) (x : list Q) :
  forall xh yh, length (lfilter_from b a0 a' xh yh x) = length x.
Proof.
  induction x as [|v x IH]; intros xh yh; simpl; [reflexivity|].
  now rewrite IH.
Qed.



Section Filtered.
Variable butter_high : Z -> Q -> option (list Q * list Q).
Variables (cutoff : Q) (fs order : Z).



End Filtered.

End FeaturesFacts.

(** ** The frequency classifier *)

Module AnalysisFacts.
Import Analysis.

Lemma argmin_from_spec (l : list Q) :
  forall (best_i : nat) (best : Q) (i : nat),
    let r := argmin_from best_i best i l in
    (r = best_i /\ Forall (fun x => best <= x)%Q l)
    \/ (i <= r < i + length l
        /\ (nth (r - i) l 0 <= best)%Q
        /\ Forall (fun x => nth (r - i) l 0 <= x)%Q l).
Proof.
  induction l as [|x l IH]; intros bi b i; simpl.
  - left. split; [reflexivity | constructor].
  - destruct (Qltb x b) eqn:L.
    + apply Qltb_lt in L. right.
      destruct (IH i x (S i)) as [[E F] | (B & N & F)].
      * rewrite E. replace (i - i) with 0 by lia.
        repeat split; try lia.
        -- now apply Qlt_le_weak.
        -- constructor; [apply Qle_refl | exact F].
      * set (r := argmin_from i x (S i) l) in *.
        replace (r - i) with (S (r - S i)) by lia.
        repeat split; try lia.
        -- eapply Qle_trans; [exact N | now apply Qlt_le_weak].
        -- constructor; [exact N | exact F].
    + apply Qltb_ge in L.
      destruct (IH bi b (S i)) as [[E F] | (B & N & F)].
      * left. split; [exact E | constructor; assumption].
      * right. set (r := argmin_from bi b (S i) l) in *.
        replace (r - i) with (S (r - S i)) by lia.
        repeat split; try lia; try assumption.
        constructor; [eapply Qle_trans; eassumption | exact F].
Qed.

(** [argmin] gives an index of the list whose item no item is below. *)
Lemma argmin_spec (l : list Q) :
  l <> [] ->
  argmin l < length l
  /\ forall j, j < length l -> (nth (argmin l) l 0 <= nth j l 0)%Q.
Proof.
  destruct l as [|x l]; [congruence|]. intros _. unfold argmin.
  assert (A : forall r, Forall (fun y => nth r (x :: l) 0 <= y)%Q (x :: l) ->
                        forall j, j < length (x :: l) ->
                                  (nth r (x :: l) 0 <= nth j (x :: l) 0)%Q).
  { intros r F j Hj. rewrite Forall_forall in F. apply F.
    apply nth_In. exact Hj. }
  destruct (argmin_from_spec l 0 x 1) as [[E F] | (B & N & F)].
  - rewrite E. split; [simpl; lia|].
    apply A. constructor; [apply Qle_refl | exact F].
  - set (r := argmin_from 0 x 1 l) in *.
    split; [simpl; lia|]. apply A.
    replace r with (S (r - 1)) by lia.
    constructor; [exact N | exact F].
Qed.

Lemma fftfreq_length (n : nat) (d : Q) : length (fftfreq n d) = n.
Proof. unfold fftfreq. now rewrite length_map, length_seq. Qed.

Lemma freq_idx_spec (freqs : list Q) (freq : Z) :
  freqs <> [] ->
  freq_idx freqs freq < length freqs
  /\ forall j, j < length freqs ->
               (Qabs (nth (freq_idx freqs freq) freqs 0 - inject_Z freq)
                <= Qabs (nth j freqs 0 - inject_Z freq))%Q.
Proof.
  intros Hne. unfold freq_idx.
  set (g := fun f : Q => Qabs (f - inject_Z freq)).
  assert (Hm : map g freqs <> []) by (destruct freqs; simpl; congruence).
  destruct (argmin_spec Hm) as [Hlt Hmin].
  rewrite length_map in Hlt, Hmin. split; [exact Hlt|].
  intros j Hj. specialize (Hmin j Hj).
  rewrite (nth_indep _ 0%Q (g 0%Q)) in Hmin by (now rewrite length_map).
  rewrite (nth_indep _ 0%Q (g 0%Q) (n := j)) in Hmin
    by (now rewrite length_map).
  rewrite !map_nth in Hmin. exact Hmin.
Qed.

Lemma dict_get_set_same (k : Z) (v : Q) (d : list (Z * Q)) :
  dict_get k (dict_set k v d) = Some v.
Proof.
  induction d as [|[k' v'] d IH]; simpl.
  - now rewrite Z.eqb_refl.
  - destruct (k =? k')%Z eqn:E; simpl.
    + now rewrite Z.eqb_refl.
    + now rewrite E.
Qed.

Lemma dict_get_set_other (k k0 : Z) (v : Q) (d : list (Z * Q)) :
  k0 <> k -> dict_get k0 (dict_set k v d) = dict_get k0 d.
Proof.
  intros N. induction d as [|[k' v'] d IH]; simpl.
  - destruct (Z.eqb_spec k0 k); [congruence | reflexivity].
  - destruct (Z.eqb_spec k k') as [<-|N']; simpl.
    + destruct (Z.eqb_spec k0 k); [congruence | reflexivity].
    + destruct (k0 =? k')%Z; [reflexivity | exact IH].
Qed.

Section Targets.
(** The magnitude recorded for a target and the bar it is held to. *)
Variable magnitude_of : Z -> Q.
Variable bar : Q.

Lemma targets_fold (targets : list Z) :
  forall acc : bool * list (Z * Q),
    let res :=
      fold_left
        (fun (acc : bool * list (Z * Q)) freq =>
           (if Qltb bar (magnitude_of freq) then true else fst acc,
            dict_set freq (magnitude_of freq) (snd acc)))
        targets acc in
    (fst res = true <->
     fst acc = true
     \/ exists freq, In freq targets /\ (bar < magnitude_of freq)%Q)
    /\ (forall freq, In freq targets ->
                     dict_get freq (snd res) = Some (magnitude_of freq))
    /\ (forall freq, ~ In freq targets ->
                     dict_get freq (snd res) = dict_get freq (snd acc)).
Proof.
  induction targets as [|f targets IH]; intros acc; simpl.
  - repeat split.
    + now left.
    + intros [H | (freq & [] & _)]. exact H.
    + intros freq [].
  - match goal with
    | |- context [fold_left _ targets ?a] =>
        destruct (IH a) as (Hflag & Hin & Hout)
    end.
    simpl in Hflag, Hin, Hout.
    repeat split.
    + intros H. apply Hflag in H. destruct H as [H | (freq & I & L)].
      * destruct (Qltb bar (magnitude_of f)) eqn:E.
        -- right. exists f. split; [now left | now apply Qltb_lt].
        -- now left.
      * right. exists freq. split; [now right | exact L].
    + intros H. apply Hflag.
      destruct H as [H | (freq & [<- | I] & L)].
      * left. destruct (Qltb bar (magnitude_of f)); [reflexivity | exact H].
      * left. apply Qltb_lt in L. now rewrite L.
      * right. exists freq. split; assumption.
    + intros freq [<- | I].
      * destruct (in_dec Z.eq_dec f targets) as [I | NI].
        -- now apply Hin.
        -- rewrite (Hout f NI). apply dict_get_set_same.
      * now apply Hin.
    + intros freq NI. rewrite Hout by tauto.
      apply dict_get_set_other. intros ->. apply NI. now left.
Qed.
End Targets.

Lemma fftfreq_nth (n : nat) (rate : Z) (j : nat) :
  j < n -> rate <> 0%Z ->
  (nth j (fftfreq n (1 / inject_Z rate)) 0
   == inject_Z (if (j <=? (n - 1) / 2)%nat then Z.of_nat j
                else Z.of_nat j - Z.of_nat n)
      * inject_Z rate / inject_Z (Z.of_nat n))%Q.
Proof.
  intros Hj Hr. unfold fftfreq.
  set (g := fun i : nat => _).
  rewrite (nth_indep _ 0%Q (g 0)) by (now rewrite length_map, length_seq).
  rewrite map_nth, seq_nth by exact Hj. subst g. simpl Nat.add.
  cbv beta.
  assert (Hn : ~ (inject_Z (Z.of_nat n) == 0)%Q).
  { unfold Qeq. simpl. lia. }
  assert (Hq : ~ (inject_Z rate == 0)%Q).
  { unfold Qeq. simpl. lia. }
  field. split; assumption.
Qed.

(** C7: on a clip with at least one sample and a non-zero sample rate,
    [analyze_frequencies] returns; for every target frequency the
    magnitude it reports is that of a bin whose frequency is nearest to
    the target (no bin is nearer), the bin frequencies being
    k x rate / n for k = 0 .. (n-1)//2, -(n//2) .. -1; and the flag is true
    exactly when some target's reported magnitude exceeds twice the mean
    magnitude over all bins. *)
Theorem analysis_reports_nearest_bin (cfg : Config) (abs_fft : list Q) :
  abs_fft <> [] ->
  RATE cfg <> 0%Z ->
  exists (detected : bool) (info : list (Z * Q)),
    analyze_frequencies cfg abs_fft = Some (detected, info)
    /\ let n := length abs_fft in
       let freqs := fftfreq n (1 / inject_Z (RATE cfg))%Q in
       (forall j, j < n ->
                  (nth j freqs 0
                   == inject_Z (if (j <=? (n - 1) / 2)%nat then Z.of_nat j
                                else Z.of_nat j - Z.of_nat n)
                      * inject_Z (RATE cfg) / inject_Z (Z.of_nat n))%Q)
       /\ (forall freq,
             In freq (ELECTRICAL_FREQS cfg) ->
             exists idx,
               idx < n
               /\ (forall j, j < n ->
                             (Qabs (nth idx freqs 0 - inject_Z freq)
                              <= Qabs (nth j freqs 0 - inject_Z freq))%Q)
               /\ dict_get freq info = Some (nth idx abs_fft 0%Q))
       /\ (detected = true <->
           exists freq m,
             In freq (ELECTRICAL_FREQS cfg)
             /\ dict_get freq info = Some m
             /\ (Features.Qmean abs_fft * 2 < m)%Q).
Proof.
  intros Hne Hrate. unfold analyze_frequencies.
  destruct abs_fft as [|m0 rest] eqn:E; [congruence|]. rewrite <- E in *.
  destruct (Z.eqb_spec (RATE cfg) 0) as [H0|_]; [congruence|].
  set (freqs := fftfreq (length abs_fft) (1 / inject_Z (RATE cfg))%Q).
  set (m := fun freq : Z => nth (freq_idx freqs freq) abs_fft 0%Q).
  destruct (@targets_fold m (Features.Qmean abs_fft * 2)%Q
              (ELECTRICAL_FREQS cfg) (false, []))
    as (Hflag & Hin & _).
  simpl in Hflag, Hin.
  match type of Hin with
  | context [fold_left ?f ?l ?a] =>
      destruct (fold_left f l a) as [detected info] eqn:F
  end.
  simpl in Hflag, Hin.
  exists detected, info. split.
  - subst m freqs. cbv beta in F. rewrite <- F. reflexivity.
  - assert (Hf : freqs <> []).
    { intros Hnil. apply (f_equal (@length Q)) in Hnil.
      subst freqs. rewrite fftfreq_length, E in Hnil. discriminate. }
    assert (Hl : length freqs = length abs_fft)
      by (subst freqs; apply fftfreq_length).
    repeat split.
    + intros j Hj. subst freqs. apply fftfreq_nth; assumption.
    + intros freq I.
      destruct (freq_idx_spec freq Hf) as [Hlt Hmin].
      rewrite Hl in Hlt, Hmin.
      exists (freq_idx freqs freq). repeat split; try assumption.
      apply (Hin freq I).
    + intros D. apply Hflag in D.
      destruct D as [D | (freq & I & L)]; [discriminate|].
      exists freq, (m freq). repeat split; auto.
    + intros (freq & v & I & G & L). apply Hflag. right.
      exists freq. split; [exact I|].
      rewrite (Hin freq I) in G. injection G as <-. exact L.
Qed.

Lemma analysis_reports_nearest_bin_witness :
  exists (detected : bool) (info : list (Z * Q)),
    analyze_frequencies
      (mkConfig 5 50 8 512 50 2 5 2 [2%Z])
      [1%Q; 1%Q; 30%Q; 1%Q; 1%Q; 1%Q; 30%Q; 1%Q]
    = Some (detected, info)
    /\ (detected = true <->
        exists freq m,
          In freq [2%Z]
          /\ dict_get freq info = Some m
          /\ (Features.Qmean [1%Q; 1%Q; 30%Q; 1%Q; 1%Q; 1%Q; 30%Q; 1%Q] * 2
              < m)%Q).
Proof.
  destruct (@analysis_reports_nearest_bin
              (mkConfig 5 50 8 512 50 2 5 2 [2%Z])
              [1%Q; 1%Q; 30%Q; 1%Q; 1%Q; 1%Q; 30%Q; 1%Q])
    as (detected & info & E & _ & _ & F).
  - discriminate.
  - simpl. lia.
  - exists detected, info. split; [exact E | exact F].
Defined.
End AnalysisFacts.

(** ** Device selection *)

Module DeviceFacts.
Import String Device.

Lemma starts_with_spec (sub : string) :
  forall s, starts_with sub s = true <-> exists post, s = (sub ++ post)%string.
Proof.
  induction sub as [|a sub IH]; intros s; simpl.
  - split; [intros _; now exists s | reflexivity].
  - destruct s as [|b s]; simpl.
    + split; [discriminate | intros (post & H); discriminate].
    + rewrite andb_true_iff, Ascii.eqb_eq, IH. split.
      * intros (-> & post & ->). now exists post.
      * intros (post & H). injection H as -> ->. split; eauto.
Qed.

Lemma contains_spec (sub : string) :
  forall s, contains sub s = true
            <-> exists pre post, s = (pre ++ sub ++ post)%string.
Proof.
  induction s as [|c s IH].
  - simpl. rewrite orb_false_r, starts_with_spec. split.
    + intros (post & H). now exists EmptyString, post.
    + intros (pre & post & H). destruct pre; [now exists post|discriminate].
  - cbn [contains]. rewrite orb_true_iff, starts_with_spec, IH. split.
    + intros [(post & H) | (pre & post & H)].
      * now exists EmptyString, post.
      * exists (String c pre), post. simpl. now rewrite H.
    + intros (pre & post & H). destruct pre as [|c' pre]; simpl in H.
      * left. now exists post.
      * right. injection H as -> ->. now exists pre, post.
Qed.

Lemma is_usb_microphone_usable (d : DeviceInfo) :
  is_usb_microphone d = true <-> usable d.
Proof.
  unfold is_usb_microphone, usable.
  rewrite andb_true_iff, orb_true_iff, !contains_spec, Z.ltb_lt.
  reflexivity.
Qed.

Lemma find_from_spec (devices : list DeviceInfo) :
  forall i,
    match find_from i devices with
    | Some k =>
        i <= k
        /\ (exists d, nth_error devices (k - i) = Some d /\ usable d)
        /\ (forall j d, j < k - i -> nth_error devices j = Some d ->
                        ~ usable d)
    | None => forall d, In d devices -> ~ usable d
    end.
Proof.
  induction devices as [|d devices IH]; intros i; simpl.
  - intros d [].
  - destruct (is_usb_microphone d) eqn:E.
    + split; [lia|]. rewrite Nat.sub_diag. split.
      * exists d. split; [reflexivity|]. now apply is_usb_microphone_usable.
      * intros j d' Hj. lia.
    + assert (N : ~ usable d).
      { rewrite <- is_usb_microphone_usable. congruence. }
      specialize (IH (S i)). destruct (find_from (S i) devices) as [k|].
      * destruct IH as (L & (d' & Hd & U) & First).
        split; [lia|].
        replace (k - i) with (S (k - S i)) by lia. split.
        -- exists d'. split; assumption.
        -- intros j d0 Hj Hn. destruct j as [|j]; simpl in Hn.
           ++ injection Hn as <-. exact N.
           ++ apply (First j d0); [lia | exact Hn].
      * intros d' [<- | I]; [exact N | now apply IH].
Qed.

(** X1: The search returns the least index of a usable device, if there is
    one; it returns nothing exactly when no device is usable. *)
Theorem find_usb_microphone_first_usable (devices : list DeviceInfo) :
  match find_usb_microphone devices with
  | Some i =>
      (exists d, nth_error devices i = Some d /\ usable d)
      /\ (forall j d, j < i -> nth_error devices j = Some d -> ~ usable d)
  | None => forall d, In d devices -> ~ usable d
  end.
Proof.
  unfold find_usb_microphone.
  pose proof (find_from_spec devices 0) as H.
  destruct (find_from 0 devices) as [k|]; [|exact H].
  rewrite Nat.sub_0_r in H. tauto.
Qed.
End DeviceFacts.

(** ** Sample decoding, peak and wrapped energy *)

Module LevelsFacts.
Import Features Levels.

Lemma frombuffer_size_upto (n : nat) :
  forall data,
    length data <= n ->
    match frombuffer data with
    | Some a => length data = 2 * length a
    | None => Nat.odd (length data) = true
    end.
Proof.
  induction n as [|n IH]; intros data L.
  - destruct data; [reflexivity | simpl in L; lia].
  - destruct data as [|lo [|hi rest]]; try reflexivity.
    assert (L' : length rest <= n) by (simpl in L; lia).
    specialize (IH rest L'). cbn [frombuffer].
    destruct (frombuffer rest) as [a|].
    + cbn [length]. rewrite IH. lia.
    + cbn [length]. rewrite Nat.odd_succ, Nat.even_succ. exact IH.
Qed.

(** The decoder returns on a buffer of even size, with one sample per two
    bytes, and fails on a buffer of odd size. *)
Lemma frombuffer_even_size (data : list Byte.byte) :
  match frombuffer data with
  | Some a => length data = 2 * length a
  | None => Nat.odd (length data) = true
  end.
Proof. apply (@frombuffer_size_upto (length data)). lia. Qed.

Lemma wrap16_small (z : Z) : (-32768 <= z <= 32767)%Z -> wrap16 z = z.
Proof.
  intros H. unfold wrap16. rewrite Z.mod_small by lia. lia.
Qed.

Lemma wrap16_square_of_256 (k : Z) : wrap16 (256 * k * (256 * k)) = 0%Z.
Proof.
  unfold wrap16.
  replace (256 * k * (256 * k) + 32768)%Z
    with (32768 + k * k * 65536)%Z by ring.
  rewrite Z.mod_add by lia. reflexivity.
Qed.

Lemma Zsum_bound (c : Z) (l : list Z) :
  Forall (fun z => (z <= c)%Z) l -> (Zsum l <= c * Z.of_nat (length l))%Z.
Proof.
  induction 1 as [|z l Hz _ IH]; simpl length; simpl Zsum; lia.
Qed.

Lemma Zmean_bound (c : Z) (l : list Z) :
  l <> [] -> Forall (fun z => (z <= c)%Z) l -> (Zmean l <= inject_Z c)%Q.
Proof.
  intros Hne F. unfold Zmean.
  apply Qle_shift_div_r.
  - unfold Qlt. simpl. destruct l; [congruence | simpl; lia].
  - rewrite <- inject_Z_mult, <- Zle_Qle. now apply Zsum_bound.
Qed.

(** X3: [calculate_rms] never returns more than the root of 32767 (about 181),
    however loud the block: the squares are reduced to 16 bits before they
    are averaged. *)
Theorem calculate_rms_wraps (data : list Byte.byte) (r : R) :
  calculate_rms data = Some r ->
  (0 <= r)%R /\ (r * r <= 32767)%R /\ (r < 182)%R.
Proof.
  intros H.
  assert (B : (0 <= r)%R /\ (r * r <= 32767)%R).
  { unfold calculate_rms in H.
    destruct (frombuffer data) as [[|z l]|]; [| |discriminate].
    - injection H as <-. split; lra.
    - set (sq := map (fun x => wrap16 (x * x)) (nan_to_num (z :: l))) in *.
      destruct (Qltb (Zmean sq) 0) eqn:L; injection H as <-; [split; lra|].
      apply Qltb_ge in L. split; [apply sqrt_pos|].
      assert (P : (0 <= Q2R (Zmean sq))%R).
      { rewrite <- RMicromega.Q2R_0. now apply Qle_Rle. }
      rewrite sqrt_sqrt by exact P.
      assert (U : (Zmean sq <= inject_Z 32767)%Q).
      { apply Zmean_bound.
        - subst sq. simpl. congruence.
        - subst sq. apply Forall_map. apply Forall_forall. intros x _.
          apply FeaturesFacts.wrap16_range. }
      apply Qle_Rle in U.
      replace (Q2R (inject_Z 32767)) with 32767%R in U
        by (unfold Q2R; simpl; lra).
      exact U. }
  destruct B as [P U]. repeat split; try assumption. nra.
Qed.

(** X4: A block whose samples are all multiples of 256 has [calculate_rms] 0:
    each square is a multiple of 65536 and wraps to 0. *)
Theorem calculate_rms_blind_to_multiples_of_256
        (data : list Byte.byte) (a : list Z) :
  frombuffer data = Some a ->
  Forall (fun x => exists k, x = (256 * k)%Z) a ->
  calculate_rms data = Some 0%R.
Proof.
  intros E F. unfold calculate_rms. rewrite E.
  destruct a as [|z l]; [reflexivity|].
  set (sq := map (fun x => wrap16 (x * x)) (nan_to_num (z :: l))).
  assert (Z0 : (Zmean sq == 0)%Q).
  { unfold Zmean. rewrite FeaturesFacts.Zsum_zeros.
    - unfold Qdiv. apply Qmult_0_l.
    - subst sq. unfold nan_to_num. apply Forall_map.
      eapply Forall_impl; [|exact F].
      intros x (k & ->). apply wrap16_square_of_256. }
  assert (L : Qltb (Zmean sq) 0 = false).
  { apply Qltb_ge. rewrite Z0. apply Qle_refl. }
  rewrite L, (FeaturesFacts.sqrt_of_zero Z0). reflexivity.
Qed.

Lemma fold_max_spec (ms : list Z) :
  forall m,
    let r := fold_left Z.max ms m in
    (r = m \/ In r ms) /\ (m <= r)%Z /\ Forall (fun z => (z <= r)%Z) ms.
Proof.
  induction ms as [|z ms IH]; intros m; simpl.
  - repeat split; [now left | lia | constructor].
  - destruct (IH (Z.max m z)) as ([E | I] & L & F).
    + repeat split.
      * rewrite E. destruct (Z.max_spec m z) as [[_ ->] | [_ ->]]; auto.
      * lia.
      * constructor; [lia | exact F].
    + repeat split; [auto | lia | constructor; [lia | exact F]].
Qed.

Lemma array_max_spec (l : list Z) :
  l <> [] ->
  In (array_max l) l /\ Forall (fun z => (z <= array_max l)%Z) l.
Proof.
  destruct l as [|m ms]; [congruence|]. intros _. unfold array_max.
  destruct (fold_max_spec ms m) as ([E | I] & L & F).
  - split; [left; now rewrite E | constructor; assumption].
  - split; [now right | constructor; assumption].
Qed.

(** X5: [calculate_peak] on a block with samples: the value is the 16-bit
    absolute value of one of them; it is at least the absolute value of
    every sample other than -32768; it is non-negative as soon as one
    sample is not -32768, and -32768 when all are. *)
Theorem calculate_peak_bounds (data : list Byte.byte) (a : list Z) (p : Z) :
  frombuffer data = Some a ->
  a <> [] ->
  calculate_peak data = Some p ->
  (exists x, In x a /\ p = wrap16 (Z.abs x))
  /\ (forall x, In x a -> x <> (-32768)%Z -> (Z.abs x <= p)%Z)
  /\ ((exists x, In x a /\ x <> (-32768)%Z) -> (0 <= p)%Z)
  /\ (Forall (fun x => x = (-32768)%Z) a -> p = (-32768)%Z).
Proof.
  intros E Hne H. unfold calculate_peak in H. rewrite E in H.
  destruct a as [|z l] eqn:Ea; [congruence|]. rewrite <- Ea in *.
  injection H as <-. unfold nan_to_num.
  assert (Hm : int16_abs a <> []) by (rewrite Ea; simpl; congruence).
  destruct (array_max_spec Hm) as [I F].
  set (p := array_max (int16_abs a)) in *.
  pose proof (FeaturesFacts.frombuffer_range data E) as Rg.
  rewrite Forall_forall in Rg, F.
  assert (Up : forall x, In x a -> x <> (-32768)%Z -> (Z.abs x <= p)%Z).
  { intros x Ix Nx.
    assert (W : wrap16 (Z.abs x) = Z.abs x).
    { apply wrap16_small. specialize (Rg x Ix). lia. }
    rewrite <- W. apply F. unfold int16_abs.
    exact (in_map (fun v => wrap16 (Z.abs v)) a x Ix). }
  unfold int16_abs in I. apply in_map_iff in I. destruct I as (x & Px & Ix).
  repeat split.
  - exists x. auto.
  - exact Up.
  - intros (y & Iy & Ny). specialize (Up y Iy Ny). lia.
  - intros All. rewrite Forall_forall in All.
    rewrite <- Px, (All x Ix). reflexivity.
Qed.

Lemma calculate_peak_bounds_witness :
  calculate_peak [Byte.x00; Byte.x80; Byte.xfb; Byte.xff] = Some 5%Z
  /\ (Z.abs (-5) <= 5)%Z.
Proof.
  split; [reflexivity|].
  destruct (@calculate_peak_bounds
              [Byte.x00; Byte.x80; Byte.xfb; Byte.xff]
              [(-32768)%Z; (-5)%Z] 5%Z eq_refl)
    as (_ & Up & _).
  - discriminate.
  - reflexivity.
  - apply Up; [simpl; auto | discriminate].
Defined.

Lemma calculate_rms_wraps_witness :
  exists r,
    calculate_rms [Byte.xff; Byte.x7f; Byte.xff; Byte.x7f] = Some r
    /\ (r < 182)%R.
Proof.
  destruct (calculate_rms [Byte.xff; Byte.x7f; Byte.xff; Byte.x7f])
    as [r|] eqn:E.
  - exists r. split; [reflexivity|].
    apply (@calculate_rms_wraps
             [Byte.xff; Byte.x7f; Byte.xff; Byte.x7f] r E).
  - unfold calculate_rms in E. simpl frombuffer in E.
    cbv beta iota in E.
    destruct (Qltb _ 0) in E; discriminate.
Defined.

Lemma calculate_rms_blind_to_multiples_of_256_witness :
  calculate_rms [Byte.x00; Byte.x01; Byte.x00; Byte.x7f] = Some 0%R.
Proof.
  apply (@calculate_rms_blind_to_multiples_of_256
           [Byte.x00; Byte.x01; Byte.x00; Byte.x7f] [256%Z; 32512%Z]).
  - reflexivity.
  - repeat constructor; [now exists 1%Z | now exists 127%Z].
Defined.
End LevelsFacts.

(** ** The filters *)

Module FilterFacts.
Import Features Levels.

Lemma lfilter_some_length (b a x y : list Q) :
  lfilter b a x = Some y -> length y = length x.
Proof.
  unfold lfilter. destruct a as [|a0 a']; [discriminate|].
  destruct (Qeq_bool a0 0); [discriminate|].
  intros H. injection H as <-. apply FeaturesFacts.lfilter_length.
Qed.

(** X6: Both filters, when they return, return a block as long as the input;
    at a sample rate of zero both fail (the Nyquist frequency divides the
    cutoff). *)
Theorem filters_keep_length
        (butter_high butter_low : Z -> Q -> option (list Q * list Q))
        (x : list Q) (cutoff : Q) (fs order : Z) :
  (forall y, highpass_filter butter_high x cutoff fs order = Some y ->
             length y = length x)
  /\ (forall y, lowpass_filter butter_low x cutoff fs order = Some y ->
                length y = length x)
  /\ (fs = 0%Z ->
      highpass_filter butter_high x cutoff fs order = None
      /\ lowpass_filter butter_low x cutoff fs order = None).
Proof.
  repeat split.
  - unfold highpass_filter. intros y.
    destruct (butter_highpass _ _ _ _) as [[b a]|]; [|discriminate].
    apply lfilter_some_length.
  - unfold lowpass_filter. intros y.
    destruct (butter_lowpass _ _ _ _) as [[b a]|]; [|discriminate].
    apply lfilter_some_length.
  - subst fs. reflexivity.
  - subst fs. reflexivity.
Qed.

Lemma lfilter_from_app (b : list Q) (a0 : Q) (a' : list Q) (x x' : list Q) :
  forall xh yh,
    lfilter_from b a0 a' xh yh (x ++ x')
    = lfilter_from b a0 a' xh yh x
      ++ lfilter_from b a0 a' (rev x ++ xh)
           (rev (lfilter_from b a0 a' xh yh x) ++ yh) x'.
Proof.
  induction x as [|v x IH]; intros xh yh; simpl.
  - reflexivity.
  - rewrite IH, <- !app_assoc. reflexivity.
Qed.

(** The filter is causal: the output for a block is the beginning of the
    output for that block followed by anything else. *)
Lemma lfilter_causal (b a x x' y : list Q) :
  lfilter b a x = Some y ->
  exists tail,
    lfilter b a (x ++ x') = Some (y ++ tail) /\ length tail = length x'.
Proof.
  unfold lfilter. destruct a as [|a0 a']; [discriminate|].
  destruct (Qeq_bool a0 0); [discriminate|].
  intros H. injection H as <-. rewrite lfilter_from_app.
  eexists. split; [reflexivity|]. apply FeaturesFacts.lfilter_length.
Qed.

Lemma filters_keep_length_witness :
  length (Features.lfilter_from [1%Q; (-1)%Q] 1%Q [(-1 # 2)%Q] [] []
                                [3%Q; 4%Q; 5%Q]) = 3.
Proof.
  destruct (@filters_keep_length
              (fun _ _ => Some ([1%Q; (-1)%Q], [1%Q; (-1 # 2)%Q]))
              (fun _ _ => None) [3%Q; 4%Q; 5%Q] 50%Q 44100%Z 5%Z)
    as (H & _).
  apply H. reflexivity.
Defined.

Section OneDesign.
Variable butter_high : Z -> Q -> option (list Q * list Q).
Variables (cutoff : Q) (fs order : Z).

(** X7: [highpass_filter] is causal: the output for a block is the beginning
    of the output for that block followed by more samples. *)
Theorem highpass_filter_causal (x x' y : list Q) :
  highpass_filter butter_high x cutoff fs order = Some y ->
  exists tail,
    highpass_filter butter_high (x ++ x') cutoff fs order = Some (y ++ tail)
    /\ length tail = length x'.
Proof.
  unfold highpass_filter.
  destruct (butter_highpass butter_high cutoff fs order) as [[b a]|];
    [|discriminate].
  apply lfilter_causal.
Qed.

End OneDesign.

Lemma highpass_filter_causal_witness :
  exists tail,
    highpass_filter (fun _ _ => Some ([1%Q; (-1)%Q], [2%Q; 1%Q]))
                    ([4%Q; 8%Q] ++ [6%Q]) 50%Q 44100%Z 5%Z
    = Some (lfilter_from [1%Q; (-1)%Q] 2%Q [1%Q] [] [] [4%Q; 8%Q] ++ tail)
    /\ length tail = 1.
Proof.
  exact (@highpass_filter_causal
           (fun _ _ => Some ([1%Q; (-1)%Q], [2%Q; 1%Q])) 50%Q 44100%Z 5%Z
           [4%Q; 8%Q] [6%Q]
           (lfilter_from [1%Q; (-1)%Q] 2%Q [1%Q] [] [] [4%Q; 8%Q])
           eq_refl).
Defined.

End FilterFacts.

(** ** More on the classifier *)

Module ClassifierFacts.
Import Analysis.

Lemma argmin_from_first (l : list Q) :
  forall (best_i : nat) (best : Q) (i : nat),
    let r := argmin_from best_i best i l in
    (r = best_i /\ Forall (fun x => best <= x)%Q l)
    \/ (i <= r
        /\ (nth (r - i) l 0 < best)%Q
        /\ forall j, j < r - i -> (nth (r - i) l 0 < nth j l 0)%Q).
Proof.
  induction l as [|x l IH]; intros bi b i; simpl.
  - left. split; [reflexivity | constructor].
  - destruct (Qltb x b) eqn:L.
    + apply Qltb_lt in L. right.
      destruct (IH i x (S i)) as [[E F] | (B & N & F)].
      * rewrite E. replace (i - i) with 0 by lia.
        repeat split; [lia | exact L | intros j Hj; lia].
      * set (r := argmin_from i x (S i) l) in *.
        replace (r - i) with (S (r - S i)) by lia.
        repeat split; [lia | eapply Qlt_trans; eassumption |].
        intros [|j] Hj; [exact N | apply F; lia].
    + apply Qltb_ge in L.
      destruct (IH bi b (S i)) as [[E F] | (B & N & F)].
      * left. split; [exact E | constructor; assumption].
      * right. set (r := argmin_from bi b (S i) l) in *.
        replace (r - i) with (S (r - S i)) by lia.
        repeat split; [lia | exact N |].
        intros [|j] Hj; [eapply Qlt_le_trans; eassumption | apply F; lia].
Qed.

Lemma argmin_first (l : list Q) (j : nat) :
  j < argmin l -> (nth (argmin l) l 0 < nth j l 0)%Q.
Proof.
  destruct l as [|x l]; [simpl; lia|]. unfold argmin.
  destruct (argmin_from_first l 0 x 1) as [[E F] | (B & N & F)].
  - rewrite E. lia.
  - set (r := argmin_from 0 x 1 l) in *. intros Hj.
    replace r with (S (r - 1)) by lia.
    destruct j as [|j]; [exact N | apply F; lia].
Qed.

(** X10: Among bins equally near a target the one of lowest index is taken:
    every bin before the chosen one is strictly farther from the target. *)
Theorem nearest_bin_is_the_first (freqs : list Q) (freq : Z) (j : nat) :
  j < freq_idx freqs freq ->
  (Qabs (nth (freq_idx freqs freq) freqs 0 - inject_Z freq)
   < Qabs (nth j freqs 0 - inject_Z freq))%Q.
Proof.
  intros Hj. unfold freq_idx in *.
  set (g := fun f : Q => Qabs (f - inject_Z freq)) in *.
  assert (Hne : freqs <> []) by (destruct freqs; [simpl in Hj; lia | congruence]).
  assert (Hm : map g freqs <> []) by (destruct freqs; simpl; congruence).
  destruct (AnalysisFacts.argmin_spec Hm) as [Hlt _].
  rewrite length_map in Hlt.
  pose proof (argmin_first (map g freqs) Hj) as H.
  rewrite (nth_indep _ 0%Q (g 0%Q)) in H by (now rewrite length_map).
  rewrite (nth_indep _ 0%Q (g 0%Q) (n := j)) in H
    by (rewrite length_map; lia).
  rewrite !map_nth in H. exact H.
Qed.

Lemma nearest_bin_is_the_first_witness :
  (Qabs (nth (freq_idx [4%Q; 1%Q; 3%Q] 2) [4%Q; 1%Q; 3%Q] 0 - inject_Z 2)
   < Qabs (nth 0 [4%Q; 1%Q; 3%Q] 0 - inject_Z 2))%Q.
Proof.
  apply (@nearest_bin_is_the_first [4%Q; 1%Q; 3%Q] 2%Z 0).
  vm_compute. lia.
Defined.

(** X11: For a target of 0 Hz or more, at a positive sample rate, the bin
    reported is never one of the negative-frequency bins of the second half
    of the spectrum; for a target of 0 Hz it is bin 0. *)
Theorem nonnegative_target_reports_nonnegative_bin
        (n : nat) (rate freq : Z) :
  0 < n -> (0 < rate)%Z -> (0 <= freq)%Z ->
  let idx := freq_idx (fftfreq n (1 / inject_Z rate)%Q) freq in
  idx <= (n - 1) / 2 /\ (freq = 0%Z -> idx = 0).
Proof.
  intros Hn Hr Hf idx.
  set (freqs := fftfreq n (1 / inject_Z rate)%Q) in *.
  assert (Hne : freqs <> []).
  { intros E. apply (f_equal (@length Q)) in E. subst freqs.
    rewrite AnalysisFacts.fftfreq_length in E. simpl in E. lia. }
  destruct (AnalysisFacts.freq_idx_spec freq Hne) as [Hlt Hmin].
  fold idx in Hlt, Hmin. subst freqs.
  rewrite AnalysisFacts.fftfreq_length in Hlt, Hmin.
  set (freqs := fftfreq n (1 / inject_Z rate)%Q) in *.
  assert (Hr' : rate <> 0%Z) by lia.
  assert (E0 : (nth 0 freqs 0 == 0)%Q).
  { subst freqs. rewrite (AnalysisFacts.fftfreq_nth Hn Hr').
    simpl. unfold Qdiv. ring. }
  assert (F : (0 <= inject_Z freq)%Q).
  { change 0%Q with (inject_Z 0). now rewrite <- Zle_Qle. }
  assert (Neg : forall i, i < n -> (n - 1) / 2 < i ->
                          (nth i freqs 0 < 0)%Q).
  { intros i Hi Hhalf. subst freqs.
    rewrite (AnalysisFacts.fftfreq_nth Hi Hr').
    destruct (Nat.leb_spec i ((n - 1) / 2)) as [L|_]; [lia|].
    apply Qlt_shift_div_r.
    - unfold Qlt. simpl. lia.
    - rewrite <- inject_Z_mult, Qmult_0_l.
      change 0%Q with (inject_Z 0). rewrite <- Zlt_Qlt. nia. }
  assert (Far : forall i, (nth i freqs 0 < 0)%Q ->
                          (Qabs (nth 0 freqs 0 - inject_Z freq)
                           < Qabs (nth i freqs 0 - inject_Z freq))%Q).
  { intros i Hi.
    assert (A : (Qabs (nth 0 freqs 0 - inject_Z freq)
                 == - (nth 0 freqs 0 - inject_Z freq))%Q)
      by (apply Qabs_neg; lra).
    assert (B : (Qabs (nth i freqs 0 - inject_Z freq)
                 == - (nth i freqs 0 - inject_Z freq))%Q)
      by (apply Qabs_neg; lra).
    lra. }
  split.
  - destruct (le_lt_dec idx ((n - 1) / 2)) as [L|G]; [exact L|].
    exfalso. specialize (Far idx (Neg idx Hlt G)).
    specialize (Hmin 0 Hn). lra.
  - intros ->. destruct idx as [|i] eqn:Ei; [reflexivity|]. exfalso.
    assert (Hj : 0 < freq_idx freqs 0) by (fold idx; lia).
    pose proof (nearest_bin_is_the_first freqs 0%Z Hj) as H.
    pose proof (Qabs_nonneg
                  (nth (freq_idx freqs 0) freqs 0 - inject_Z 0)%Q) as P.
    assert (A : (Qabs (nth 0 freqs 0 - inject_Z 0) == 0)%Q).
    { assert (Z0 : (nth 0 freqs 0 - inject_Z 0 == 0)%Q).
      { rewrite E0. reflexivity. }
      rewrite (Qabs_wd _ _ Z0). reflexivity. }
    lra.
Qed.

Lemma nonnegative_target_reports_nonnegative_bin_witness :
  freq_idx (fftfreq 8 (1 / inject_Z 8)%Q) 120 <= (8 - 1) / 2.
Proof.
  apply (@nonnegative_target_reports_nonnegative_bin 8 8%Z 120%Z); lia.
Defined.

Lemma dict_set_in (k : Z) (v : Q) (d : list (Z * Q)) (x : Z) :
  In x (map fst (dict_set k v d)) <-> x = k \/ In x (map fst d).
Proof.
  induction d as [|[k' v'] d IH]; simpl.
  - intuition.
  - destruct (Z.eqb_spec k k') as [<-|N]; simpl.
    + intuition.
    + rewrite IH. intuition.
Qed.

Lemma dict_set_nodup (k : Z) (v : Q) (d : list (Z * Q)) :
  NoDup (map fst d) -> NoDup (map fst (dict_set k v d)).
Proof.
  induction d as [|[k' v'] d IH]; simpl; intros H.
  - constructor; [intros [] | constructor].
  - inversion H as [|? ? Hn Hd]; subst.
    destruct (Z.eqb_spec k k') as [<-|N]; simpl.
    + constructor; assumption.
    + constructor; [|now apply IH].
      rewrite dict_set_in. intros [E | I]; [congruence | contradiction].
Qed.

Section Keys.
Variable magnitude_of : Z -> Q.
Variable bar : Q.

Lemma targets_fold_keys (targets : list Z) :
  forall acc : bool * list (Z * Q),
    NoDup (map fst (snd acc)) ->
    let res :=
      fold_left
        (fun (acc : bool * list (Z * Q)) freq =>
           (if Qltb bar (magnitude_of freq) then true else fst acc,
            dict_set freq (magnitude_of freq) (snd acc)))
        targets acc in
    NoDup (map fst (snd res))
    /\ forall x, In x (map fst (snd res))
                 <-> In x targets \/ In x (map fst (snd acc)).
Proof.
  induction targets as [|f targets IH]; intros acc H; simpl.
  - split; [exact H | intuition].
  - match goal with
    | |- context [fold_left _ targets ?a] =>
        destruct (IH a) as (Hn & Hk)
    end.
    + simpl. now apply dict_set_nodup.
    + split; [exact Hn|]. intros x. rewrite Hk. simpl.
      rewrite dict_set_in. intuition.
Qed.
End Keys.

(** X12: The report has one entry per distinct target frequency: its keys are
    the frequencies of [ELECTRICAL_FREQS], none twice, even when the list
    repeats one. *)
Theorem report_lists_each_target_once
        (cfg : Config) (abs_fft : list Q) (detected : bool)
        (info : list (Z * Q)) :
  analyze_frequencies cfg abs_fft = Some (detected, info) ->
  NoDup (map fst info)
  /\ forall k, In k (map fst info) <-> In k (ELECTRICAL_FREQS cfg).
Proof.
  unfold analyze_frequencies.
  destruct abs_fft as [|m0 rest] eqn:E; [discriminate|]. rewrite <- E.
  destruct (RATE cfg =? 0)%Z; [discriminate|].
  intros H. injection H as H.
  set (freqs := fftfreq (length abs_fft) (1 / inject_Z (RATE cfg))%Q) in H.
  destruct (@targets_fold_keys
              (fun freq => nth (freq_idx freqs freq) abs_fft 0%Q)
              (Features.Qmean abs_fft * 2)%Q
              (ELECTRICAL_FREQS cfg) (false, []))
    as (Hn & Hk); [constructor|].
  simpl in Hn, Hk. rewrite H in Hn, Hk. simpl in Hn, Hk.
  split; [exact Hn|]. intros k. rewrite Hk. intuition.
Qed.

Lemma report_lists_each_target_once_witness :
  NoDup (map fst [(2%Z, 3%Q); (3%Z, 1%Q)]).
Proof.
  apply (@report_lists_each_target_once
           (mkConfig 5 50 8 512 50 2 5 2 [2%Z; 3%Z; 2%Z])
           [1%Q; 1%Q; 3%Q; 1%Q; 1%Q; 1%Q; 3%Q; 1%Q] false
           [(2%Z, 3%Q); (3%Z, 1%Q)]).
  reflexivity.
Defined.

Lemma Qsum_const (m : Q) (l : list Q) :
  Forall (fun v => v == m)%Q l ->
  (Features.Qsum l == inject_Z (Z.of_nat (length l)) * m)%Q.
Proof.
  induction 1 as [|v l Hv _ IH].
  - simpl. ring.
  - cbn [Features.Qsum fold_right length].
    fold (Features.Qsum l). rewrite Hv, IH, Nat2Z.inj_succ.
    unfold Z.succ. rewrite inject_Z_plus. ring.
Qed.

Lemma Qmean_const (m : Q) (l : list Q) :
  l <> [] -> Forall (fun v => v == m)%Q l -> (Features.Qmean l == m)%Q.
Proof.
  intros Hne F. unfold Features.Qmean. rewrite (Qsum_const F).
  field. unfold Qeq. simpl. destruct l; [congruence | simpl; lia].
Qed.

(** X13: A clip whose spectrum is flat (every bin of the same non-negative
    magnitude, as for a single sample or an impulse) is never flagged. *)
Theorem flat_spectrum_is_not_flagged
        (cfg : Config) (abs_fft : list Q) (m : Q) (detected : bool)
        (info : list (Z * Q)) :
  Forall (fun v => v == m)%Q abs_fft ->
  (0 <= m)%Q ->
  analyze_frequencies cfg abs_fft = Some (detected, info) ->
  detected = false.
Proof.
  intros Flat Pos. unfold analyze_frequencies.
  destruct abs_fft as [|m0 rest] eqn:E; [discriminate|]. rewrite <- E in *.
  destruct (RATE cfg =? 0)%Z; [discriminate|].
  intros H. injection H as H.
  set (freqs := fftfreq (length abs_fft) (1 / inject_Z (RATE cfg))%Q) in H.
  destruct (@AnalysisFacts.targets_fold
              (fun freq => nth (freq_idx freqs freq) abs_fft 0%Q)
              (Features.Qmean abs_fft * 2)%Q
              (ELECTRICAL_FREQS cfg) (false, []))
    as (Hflag & _ & _).
  simpl in Hflag. rewrite H in Hflag. simpl in Hflag.
  destruct detected; [|reflexivity]. exfalso.
  destruct Hflag as [Hflag _].
  destruct (Hflag eq_refl) as [D | (freq & _ & L)]; [discriminate|].
  assert (Hne : abs_fft <> []) by (rewrite E; congruence).
  assert (Hf : freqs <> []).
  { intros Hnil. apply (f_equal (@length Q)) in Hnil. subst freqs.
    rewrite AnalysisFacts.fftfreq_length, E in Hnil. discriminate. }
  destruct (AnalysisFacts.freq_idx_spec freq Hf) as [Hlt _].
  subst freqs. rewrite AnalysisFacts.fftfreq_length in Hlt.
  set (freqs := fftfreq (length abs_fft) (1 / inject_Z (RATE cfg))%Q) in *.
  assert (V : (nth (freq_idx freqs freq) abs_fft 0 == m)%Q).
  { rewrite Forall_forall in Flat. apply Flat. now apply nth_In. }
  rewrite V, (Qmean_const Hne Flat) in L. lra.
Qed.

Lemma flat_spectrum_is_not_flagged_witness :
  fst (false, [(120%Z, 7%Q)]) = false.
Proof.
  simpl.
  apply (@flat_spectrum_is_not_flagged default_config [7%Q] 7%Q false
           [(120%Z, 7%Q)]).
  - repeat constructor.
  - discriminate.
  - reflexivity.
Defined.
End ClassifierFacts.

(** ** The two threads together *)

Module ThreadsFacts.
Import Monitor Pipeline.

Section Facts.
Variable Block : Type.
Variable cfg : Config.

Lemma blocks_of_app (l1 l2 : list (option Block)) :
  blocks_of (l1 ++ l2) = blocks_of l1 ++ blocks_of l2.
Proof. unfold blocks_of. apply flat_map_app. Qed.

Lemma step_keeps_writer_consistent (sys : System Block)
      (a : Action Block) :
  writer_consistent sys -> writer_consistent (step cfg sys a).
Proof.
  intros (C & N & T & M).
  destruct a as [x | r | t |]; simpl; try (repeat split; assumption).
  unfold writer_step.
  destruct (pc (wr sys)); try (repeat split; assumption).
  destruct (audio_queue (self (mon sys))) as [|x q];
    [repeat split; assumption|].
  unfold writer_consistent, writer_item. simpl.
  rewrite blocks_of_app, MonitorFacts.markers_app, <- C.
  destruct x as [d|]; simpl.
  - rewrite !length_app, T. simpl.
    split; [now rewrite app_assoc|]. split; [exact N|].
    split; [reflexivity | lia].
  - destruct (recording_data (wr sys)) as [|b l] eqn:E; simpl.
    + split; [now rewrite !app_nil_r|]. split; [exact N|].
      split; [exact T | unfold markers in *; simpl; lia].
    + rewrite map_app, concat_app, length_app. simpl.
      rewrite !app_nil_r.
      split; [reflexivity|]. split.
      * apply Forall_app. split; [exact N|].
        constructor; [simpl; congruence | constructor].
      * split; [reflexivity | unfold markers in *; simpl; lia].
Qed.

(** X14: Over every schedule, from the start of monitoring: the clips the
    writer has saved followed by the clip at hand are exactly the blocks
    it has observed, in order; no saved clip is empty; the clip at hand
    has one time stamp per block (so the file name always comes from the
    first block of the clip); and the files are at most as many as the
    markers observed. *)
Theorem writer_saves_what_it_observed (s : Self Block)
        (sched : list (Action Block)) :
  let sys := run cfg (start s) sched in
  concat (map (@data_chunks Block) (files (wr sys)))
  ++ recording_data (wr sys)
  = blocks_of (observed sys)
  /\ Forall (fun f => data_chunks f <> []) (files (wr sys))
  /\ length (timestamps (wr sys)) = length (recording_data (wr sys))
  /\ length (files (wr sys)) <= markers (observed sys).
Proof.
  intros sys. subst sys.
  assert (G : forall (l : list (Action Block)) (sys0 : System Block),
             writer_consistent sys0 ->
             writer_consistent (run cfg sys0 l)).
  { clear. induction l as [|a l IH]; intros sys0 H; simpl.
    - exact H.
    - apply IH. now apply step_keeps_writer_consistent. }
  apply (G sched (start s)).
  unfold writer_consistent. simpl.
  split; [reflexivity|]. split; [constructor|]. split; [reflexivity | lia].
Qed.

(** *** Quiet input *)

Lemma quiet_iteration (st : Loop Block) (r : ReadResult Block) :
  recording (self st) = false ->
  quiet cfg r ->
  let st' := monitor_iteration cfg st r in
  recording (self st') = false
  /\ audio_queue (self st') = audio_queue (self st)
  /\ detections (self st') = detections (self st)
  /\ silence_start_time st' = silence_start_time st.
Proof.
  intros R Hq. destruct r as [|fr]; simpl.
  - auto.
  - simpl in Hq. apply Qltb_ge in Hq.
    rewrite MonitorFacts.body_recording, MonitorFacts.body_audio_queue,
            MonitorFacts.body_detections, MonitorFacts.body_silence.
    rewrite (MonitorFacts.trigger_listening_quiet cfg st fr R Hq).
    simpl. auto.
Qed.

Lemma quiet_loop (reads : list (ReadResult Block)) :
  forall st : Loop Block,
    recording (self st) = false ->
    Forall (quiet cfg) reads ->
    let st' := fold_left (monitor_iteration cfg) reads st in
    recording (self st') = false
    /\ audio_queue (self st') = audio_queue (self st)
    /\ detections (self st') = detections (self st)
    /\ silence_start_time st' = silence_start_time st.
Proof.
  induction reads as [|r reads IH]; intros st R F; simpl.
  - auto.
  - inversion F as [|? ? Hr F']; subst.
    destruct (quiet_iteration st r R Hr) as (R1 & Q1 & D1 & S1).
    destruct (IH (monitor_iteration cfg st r) R1 F') as (R2 & Q2 & D2 & S2).
    repeat split; congruence.
Qed.

(** X15: While no reading exceeds the threshold, from the state [__init__]
    builds, the loop stays Listening: nothing is put on the queue, nothing
    is counted, no recording start is logged and the silence timer stays
    unset. *)
Theorem quiet_input_records_nothing (s : Self Block)
        (reads : list (ReadResult Block)) :
  init Block cfg = Some s ->
  Forall (quiet cfg) reads ->
  let st := monitor_loop cfg s reads in
  recording (self st) = false
  /\ audio_queue (self st) = []
  /\ detections (self st) = 0
  /\ silence_start_time st = None
  /\ starts (logger (self st)) = 0.
Proof.
  intros Hinit F st.
  destruct (@MonitorFacts.init_some Block cfg s Hinit) as (n & _ & ->).
  destruct (@quiet_loop reads (mkLoop (mkSelf false (Deque.empty n) []
                                              false 0 []) None)
                        eq_refl F) as (R & Q & D & S).
  fold (monitor_loop cfg (mkSelf false (Deque.empty n) [] false 0 []) reads)
    in R, Q, D, S.
  fold st in R, Q, D, S. simpl in Q, D, S.
  repeat split; try assumption.
  assert (A : accounted st).
  { apply (@MonitorFacts.accounted_loop Block cfg reads).
    unfold accounted. simpl. auto. }
  destruct A as (_ & _ & _ & T). rewrite T, R, D. reflexivity.
Qed.

(** *** Reads that fail *)

Lemma forget_iteration (st1 st2 : Loop Block) (r : ReadResult Block) :
  forget_log st1 = forget_log st2 ->
  forget_log (monitor_iteration cfg st1 r)
  = forget_log (monitor_iteration cfg st2 r).
Proof.
  destruct st1 as [[r1 p1 q1 e1 d1 l1] s1].
  destruct st2 as [[r2 p2 q2 e2 d2 l2] s2].
  unfold forget_log. simpl. intros H.
  injection H as -> -> -> -> -> ->.
  destruct r as [|fr]; simpl; [reflexivity|].
  unfold monitor_body, trigger. simpl.
  rewrite !MonitorFacts.start_recording_eq. simpl.
  destruct r2; simpl;
    repeat match goal with
           | |- context [Qltb ?a ?b] => destruct (Qltb a b); simpl
           | |- context [status_due ?t] => destruct (status_due t); simpl
           | |- context [match ?o with Some _ => _ | None => _ end] =>
               destruct o; simpl
           end;
    reflexivity.
Qed.

Lemma forget_loop (reads : list (ReadResult Block)) :
  forall st1 st2 : Loop Block,
    forget_log st1 = forget_log st2 ->
    forget_log (fold_left (monitor_iteration cfg) reads st1)
    = forget_log (fold_left (monitor_iteration cfg) (delivered reads) st2).
Proof.
  induction reads as [|r reads IH]; intros st1 st2 H; simpl.
  - exact H.
  - destruct r as [|fr]; simpl.
    + apply IH. rewrite <- H. reflexivity.
    + apply IH. exact (@forget_iteration st1 st2 (Read fr) H).
Qed.

(** X16: Reads that fail with an overflow leave no trace but their warning:
    apart from the log, the loop ends in the same state as on the reads
    that delivered a block. *)
Theorem overflows_change_only_the_log (s : Self Block)
        (reads : list (ReadResult Block)) :
  forget_log (monitor_loop cfg s reads)
  = forget_log (monitor_loop cfg s (delivered reads)).
Proof. unfold monitor_loop. now apply forget_loop. Qed.

(** *** The capture loop beside the writer *)

Lemma iteration_parallel (st1 st2 : Loop Block) (r : ReadResult Block) :
  same_capture st1 st2 ->
  let st1' := monitor_iteration cfg st1 r in
  let st2' := monitor_iteration cfg st2 r in
  same_capture st1' st2'
  /\ (exists added,
        audio_queue (self st1') = audio_queue (self st1) ++ added
        /\ audio_queue (self st2') = audio_queue (self st2) ++ added)
  /\ writer_thread_stop_event (self st1')
     = writer_thread_stop_event (self st1)
  /\ writer_thread_stop_event (self st2')
     = writer_thread_stop_event (self st2).
Proof.
  destruct st1 as [[r1 p1 q1 e1 d1 l1] s1].
  destruct st2 as [[r2 p2 q2 e2 d2 l2] s2].
  unfold same_capture. simpl. intros (-> & -> & -> & -> & ->).
  destruct r as [|fr]; simpl.
  - split; [auto 10|]. split; [|auto].
    exists []. now rewrite !app_nil_r.
  - unfold monitor_body, trigger. simpl.
    rewrite !MonitorFacts.start_recording_eq. simpl.
    destruct r2; simpl;
      repeat match goal with
             | |- context [Qltb ?a ?b] => destruct (Qltb a b); simpl
             | |- context [status_due ?t] => destruct (status_due t); simpl
             | |- context [match ?o with Some _ => _ | None => _ end] =>
                 destruct o; simpl
             end;
      (split; [auto 10|]; split; [|auto];
       first [ exists []; now rewrite !app_nil_r
             | eexists; rewrite <- ?app_assoc; split; reflexivity ]).
Qed.

Lemma run_parallel (sched : list (Action Block)) :
  forall (sys : System Block) (solo : Loop Block),
    no_put sched = true ->
    same_capture (mon sys) solo ->
    observed sys ++ audio_queue (self (mon sys)) = audio_queue (self solo) ->
    let sys' := run cfg sys sched in
    let solo' := fold_left (monitor_iteration cfg) (iterations sched) solo in
    same_capture (mon sys') solo'
    /\ observed sys' ++ audio_queue (self (mon sys'))
       = audio_queue (self solo').
Proof.
  induction sched as [|a sched IH]; intros sys solo N S Q.
  - simpl. auto.
  - simpl in N. apply andb_true_iff in N. destruct N as [Na N].
    change (run cfg sys (a :: sched)) with (run cfg (step cfg sys a) sched).
    destruct a as [x | r | t |]; try discriminate.
    + simpl iterations. simpl fold_left.
      destruct (@iteration_parallel (mon sys) solo r S)
        as (S' & (added & A1 & A2) & _).
      apply (IH (step cfg sys (Iteration r))
                (monitor_iteration cfg solo r) N).
      * exact S'.
      * simpl. rewrite A1, A2, <- Q. now rewrite app_assoc.
    + simpl iterations.
      apply (IH (step cfg sys (WriterStep t)) solo N).
      * simpl. unfold writer_step.
        destruct (pc (wr sys)); try exact S.
        destruct (audio_queue (self (mon sys))); exact S.
      * simpl. unfold writer_step.
        destruct (pc (wr sys)); try exact Q.
        destruct (audio_queue (self (mon sys))) as [|x q] eqn:E; simpl.
        -- rewrite E. exact Q.
        -- rewrite <- Q, <- app_assoc. reflexivity.
    + simpl iterations.
      apply (IH (step cfg sys CleanUp) solo N); [exact S | exact Q].
Qed.

(** X17: Whatever the writer and the shutdown do in between, the capture loop
    ends as it would alone on the same reads: same recording flag,
    pre-buffer, counter, log and silence timer; and what the writer has
    observed followed by what is still queued is exactly what the loop
    alone would have put. *)
Theorem capture_ignores_the_writer (s : Self Block)
        (sched : list (Action Block)) :
  no_put sched = true ->
  let sys := run cfg (start s) sched in
  let solo := monitor_loop cfg s (iterations sched) in
  same_capture (mon sys) solo
  /\ observed sys ++ audio_queue (self (mon sys))
     = audio_queue (self solo).
Proof.
  intros N. apply (@run_parallel sched (start s) (mkLoop s None) N).
  - unfold same_capture. simpl. auto 10.
  - reflexivity.
Qed.

Lemma run_keeps_writer_consistent (sched : list (Action Block)) :
  forall sys : System Block,
    writer_consistent sys -> writer_consistent (run cfg sys sched).
Proof.
  induction sched as [|a sched IH]; intros sys H; simpl.
  - exact H.
  - apply IH. now apply step_keeps_writer_consistent.
Qed.

(** X18: from the state [__init__] builds, whatever the interleaving: the
    markers the loop has put (observed or still queued) are never more than
    the detections counted, and the writer has saved at most that many
    files.  ([stop_recording] raises the counter before it puts the
    marker.) *)
Theorem saved_clips_never_exceed_detections (s : Self Block)
        (sched : list (Action Block)) :
  init Block cfg = Some s ->
  no_put sched = true ->
  let sys := run cfg (start s) sched in
  markers (observed sys ++ audio_queue (self (mon sys)))
  <= detections (self (mon sys))
  /\ length (files (wr sys)) <= detections (self (mon sys)).
Proof.
  intros Hinit N sys.
  destruct (@MonitorFacts.init_some Block cfg s Hinit) as (n & _ & E).
  destruct (@run_parallel sched (start s) (mkLoop s None) N)
    as ((_ & _ & D & _) & Q).
  { unfold same_capture. simpl. auto 10. }
  { reflexivity. }
  fold sys in D, Q.
  assert (A : accounted
                (fold_left (monitor_iteration cfg) (iterations sched)
                           (mkLoop s None))).
  { apply (@MonitorFacts.accounted_loop Block cfg (iterations sched)).
    subst s. unfold accounted. simpl. auto. }
  destruct A as (_ & _ & M & _).
  assert (W : writer_consistent sys).
  { apply run_keeps_writer_consistent.
    unfold writer_consistent. simpl.
    split; [reflexivity|]. split; [constructor|].
    split; [reflexivity | lia]. }
  destruct W as (_ & _ & _ & F).
  rewrite Q, D, M. split; [lia|].
  rewrite <- M, <- Q, MonitorFacts.markers_app. lia.
Qed.

(** X19: When the queue is empty, the writer holds exactly what the capture
    loop has put: its saved clips and its clip at hand are those spelled by
    the items the loop alone would have put on the same reads. *)
Theorem drained_writer_holds_every_clip (s : Self Block)
        (sched : list (Action Block)) :
  no_put sched = true ->
  audio_queue s = [] ->
  let sys := run cfg (start s) sched in
  audio_queue (self (mon sys)) = [] ->
  writer_view sys
  = fold_left absorb
              (audio_queue (self (monitor_loop cfg s (iterations sched))))
              ([], []).
Proof.
  intros N E sys D.
  destruct (@run_parallel sched (start s) (mkLoop s None) N) as (_ & Q).
  { unfold same_capture. simpl. auto 10. }
  { simpl. now rewrite E. }
  fold sys in Q. rewrite D, app_nil_r in Q.
  destruct (@PipelineFacts.run_absorb Block cfg sched (start s))
    as (new & O & V).
  fold sys in O, V. simpl in O. unfold monitor_loop.
  rewrite V, <- Q, O. reflexivity.
Qed.
End Facts.
Lemma quiet_input_records_nothing_witness :
  let s := mkSelf false (Deque.empty 2) [] false 0 [] in
  let st := monitor_loop small_config s
              [Read (mkFrame 1 5 1); Overflow; Read (mkFrame 2 50 2)] in
  recording (self st) = false /\ audio_queue (self st) = [].
Proof.
  intros s st.
  destruct (@quiet_input_records_nothing nat small_config s
              [Read (mkFrame 1 5 1); Overflow; Read (mkFrame 2 50 2)]
              eq_refl) as (R & Q & _).
  - repeat constructor; simpl; discriminate.
  - split; assumption.
Defined.

Lemma capture_ignores_the_writer_witness :
  let s := mkSelf false (Deque.empty 2) [] false 0 [] in
  let sched :=
    [Iteration (Read (mkFrame 1 80 1)); WriterStep 1; WriterStep 1;
     Iteration (Read (mkFrame 2 5 2)); WriterStep 2; CleanUp] in
  let sys := run small_config (start s) sched in
  observed sys ++ audio_queue (self (mon sys))
  = audio_queue (self (monitor_loop small_config s (iterations sched))).
Proof.
  intros s sched sys.
  apply (@capture_ignores_the_writer nat small_config s sched eq_refl).
Defined.

Lemma saved_clips_never_exceed_detections_witness :
  let s := mkSelf false (Deque.empty 2) [] false 0 [] in
  let sched :=
    [Iteration (Read (mkFrame 1 80 1)); Iteration (Read (mkFrame 2 5 2));
     Iteration (Read (mkFrame 3 5 5)); WriterStep 5; WriterStep 5;
     WriterStep 5; WriterStep 5] in
  let sys := run small_config (start s) sched in
  length (files (wr sys)) <= detections (self (mon sys)).
Proof.
  intros s sched sys.
  apply (@saved_clips_never_exceed_detections nat small_config s sched
           eq_refl eq_refl).
Defined.

Lemma drained_writer_holds_every_clip_witness :
  let s := mkSelf false (Deque.empty 2) [] false 0 [] in
  let sched :=
    [Iteration (Read (mkFrame 1 80 1)); Iteration (Read (mkFrame 2 5 2));
     Iteration (Read (mkFrame 3 5 5)); WriterStep 5; WriterStep 5;
     WriterStep 5; WriterStep 5; WriterStep 6; WriterStep 6; WriterStep 6;
     WriterStep 6; WriterStep 7; WriterStep 7] in
  writer_view (run small_config (start s) sched) = ([[1; 1; 2; 3]], []).
Proof.
  intros s sched.
  apply (@drained_writer_holds_every_clip nat small_config s sched);
    reflexivity.
Defined.

End ThreadsFacts.

(** ** The status line and the failures of the filtered energy *)

Module LoopFacts.
Import Monitor Features.

Lemma Qfloor_unique (t : Q) (z : Z) :
  (inject_Z z <= t)%Q -> (t < inject_Z z + 1)%Q -> Qfloor t = z.
Proof.
  intros L U.
  assert (A : (z <= Qfloor t)%Z).
  { apply Qfloor_resp_le in L. now rewrite Qfloor_Z in L. }
  assert (B : (Qfloor t < z + 1)%Z).
  { rewrite Zlt_Qlt, inject_Z_plus.
    eapply Qle_lt_trans; [apply Qfloor_le | exact U]. }
  lia.
Qed.

(** X20: with clock reads of zero or more, the status line is emitted
    exactly when the first read falls in a second that begins at a whole
    multiple of five and the second read is less than 20 ms past the
    beginning of the second the third read falls in.  When the three reads
    fall in one second this is the 20 ms window after the multiple of five;
    the test of the loop model is the case of three equal reads. *)
Theorem status_line_three_reads (t1 t2 t3 : Q) :
  (0 <= t1)%Q -> (0 <= t3)%Q ->
  (Pipeline.status_reads t1 t2 t3 = true
   <-> exists k j : Z,
         (0 <= k)%Z
         /\ (inject_Z (5 * k) <= t1)%Q
         /\ (t1 < inject_Z (5 * k) + 1)%Q
         /\ (inject_Z j <= t3)%Q
         /\ (t3 < inject_Z j + 1)%Q
         /\ (t2 < inject_Z j + (2 # 100))%Q)
  /\ (Qfloor t1 = Qfloor t3 ->
      (Pipeline.status_reads t1 t2 t3 = true
       <-> exists k : Z,
             (0 <= k)%Z
             /\ (inject_Z (5 * k) <= t1)%Q
             /\ (t1 < inject_Z (5 * k) + 1)%Q
             /\ (t2 < inject_Z (5 * k) + (2 # 100))%Q))
  /\ status_due t1 = Pipeline.status_reads t1 t1 t1.
Proof.
  intros P1 P3.
  assert (F1 : (0 <= Qfloor t1)%Z).
  { change 0%Z with (Qfloor 0). now apply Qfloor_resp_le. }
  assert (B1 : (t1 < inject_Z (Qfloor t1) + 1)%Q).
  { pose proof (Qlt_floor t1) as H. rewrite inject_Z_plus in H. exact H. }
  assert (B3 : (t3 < inject_Z (Qfloor t3) + 1)%Q).
  { pose proof (Qlt_floor t3) as H. rewrite inject_Z_plus in H. exact H. }
  assert (Main :
            Pipeline.status_reads t1 t2 t3 = true
            <-> (Qfloor t1 mod 5 = 0)%Z
                /\ (t2 < inject_Z (Qfloor t3) + (2 # 100))%Q).
  { unfold Pipeline.status_reads.
    rewrite (@py_int_floor t1 P1), (@py_int_floor t3 P3).
    rewrite andb_true_iff, Z.eqb_eq, Qltb_lt.
    split; intros [M L]; (split; [exact M | lra]). }
  assert (Five : forall k : Z,
             (inject_Z (5 * k) <= t1)%Q ->
             (t1 < inject_Z (5 * k) + 1)%Q ->
             Qfloor t1 = (5 * k)%Z).
  { intros k L U. now apply Qfloor_unique. }
  split; [|split].
  - rewrite Main. split.
    + intros [M L]. exists (Qfloor t1 / 5)%Z, (Qfloor t3).
      assert (E : (5 * (Qfloor t1 / 5))%Z = Qfloor t1).
      { pose proof (Z.div_mod (Qfloor t1) 5). lia. }
      rewrite E.
      repeat split; try assumption; try apply Qfloor_le.
      apply Z.div_pos; lia.
    + intros (k & j & K & L1 & U1 & L3 & U3 & L2).
      rewrite (Five k L1 U1), (@Qfloor_unique t3 j L3 U3).
      split; [|exact L2]. rewrite Z.mul_comm. apply Z_mod_mult.
  - intros Same. rewrite Main, <- Same. split.
    + intros [M L]. exists (Qfloor t1 / 5)%Z.
      assert (E : (5 * (Qfloor t1 / 5))%Z = Qfloor t1).
      { pose proof (Z.div_mod (Qfloor t1) 5). lia. }
      rewrite E.
      repeat split; try assumption; try apply Qfloor_le.
      apply Z.div_pos; lia.
    + intros (k & K & L1 & U1 & L2).
      rewrite (Five k L1 U1).
      split; [|exact L2]. rewrite Z.mul_comm. apply Z_mod_mult.
  - reflexivity.
Qed.

(** The reads 5.999999, 6.000000 and 6.000001: the line is emitted. *)
Lemma status_line_three_reads_witness :
  Pipeline.status_reads (5999999 # 1000000) 6 (6000001 # 1000000) = true.
Proof.
  destruct (@status_line_three_reads
              (5999999 # 1000000) 6 (6000001 # 1000000))
    as (H & _); try discriminate.
  apply H. exists 1%Z, 6%Z. repeat split; discriminate.
Defined.

Section Filtered.
Variable butter_high : Z -> Q -> option (list Q * list Q).
Variables (cutoff : Q) (fs order : Z).

(** X9: [calculate_filtered_rms] returns on an empty block whatever the filter
    parameters; on any other block it returns exactly when the block has
    whole samples, the filter design succeeds and its leading denominator
    coefficient is not zero. *)
Theorem calculate_filtered_rms_returns (data : list Byte.byte) :
  (exists r, calculate_filtered_rms butter_high data cutoff fs order
             = Some r)
  <-> data = []
      \/ (Nat.even (length data) = true
          /\ exists b a0 a',
               butter_highpass butter_high cutoff fs order
               = Some (b, a0 :: a')
               /\ ~ (a0 == 0)%Q).
Proof.
  unfold calculate_filtered_rms.
  pose proof (@LevelsFacts.frombuffer_size_upto (length data) data
                (le_n _)) as S.
  destruct (frombuffer data) as [[|z l]|].
  - split; [|eauto]. intros _. left.
    destruct data; [reflexivity | discriminate].
  - assert (Ev : Nat.even (length data) = true).
    { rewrite S. rewrite Nat.even_mul. reflexivity. }
    assert (Ne : data <> []).
    { intros ->. discriminate. }
    unfold highpass_filter, lfilter.
    destruct (butter_highpass butter_high cutoff fs order)
      as [[b [|a0 a']]|].
    + split; [intros (r & H); discriminate|].
      intros [E | (_ & b' & a0 & a' & H & _)]; [contradiction|discriminate].
    + destruct (Qeq_bool a0 0) eqn:Z0.
      * split; [intros (r & H); discriminate|].
        intros [E | (_ & b' & a1 & a1' & H & N)]; [contradiction|].
        injection H as <- <- <-. apply Qeq_bool_iff in Z0. contradiction.
      * split; [|eauto]. intros _. right. split; [exact Ev|].
        exists b, a0, a'. split; [reflexivity|].
        now apply Qeq_bool_neq.
    + split; [intros (r & H); discriminate|].
      intros [E | (_ & b' & a0 & a' & H & _)]; [contradiction|discriminate].
  - split; [intros (r & H); discriminate|].
    intros [-> | (Ev & _)]; [discriminate|].
    rewrite <- Nat.negb_odd, S in Ev. discriminate.
Qed.
End Filtered.

Lemma calculate_filtered_rms_returns_witness :
  exists r,
    calculate_filtered_rms (fun _ _ => None) [] 50%Q 0%Z 5%Z = Some r.
Proof.
  apply (@calculate_filtered_rms_returns (fun _ _ => None) 50%Q 0%Z 5%Z []).
  now left.
Defined.
End LoopFacts.

(** ** Construction *)

Module InitFacts.
Import Monitor.



End InitFacts.
